(** * pyminio: path resolution and tree operations over an object store

    A shallow embedding of [pyminio/main.py]: the [Match] path resolver
    (its regular expression run by a small backtracking matcher that
    follows Python's [re] search order), the [os.path] helpers it calls,
    and the [Pyminio] operations written in a state-and-exception monad
    over an abstract MinIO client. *)

From Stdlib Require Import List Ascii String Bool Arith ZArith Lia.
From Stdlib Require Import Sorting.Permutation Sorting.Sorted.
Import ListNotations.
Open Scope string_scope.

(** ** Python built-ins and [os.path] (posixpath) helpers

    A [str] is read as a [string], whose characters are 8-bit: ASCII
    text is itself, a character beyond ASCII is the bytes of its UTF-8
    form.  Separators and newlines are ASCII, so finding them, splitting
    and joining agree with Python on every text; what counts characters
    (a pattern that needs two of them, [s[:-1]]) or changes case agrees
    with Python on ASCII. *)

Module Py.

Definition sep : ascii := "/"%char.
Definition newline : ascii := "010"%char.
Definition nl : string := String newline "".

Definition is_sep (c : ascii) : bool := Ascii.eqb c sep.
Definition is_newline (c : ascii) : bool := Ascii.eqb c newline.


(** [c in s] for a single character. *)
Fixpoint contains (c : ascii) (s : string) : bool :=
  match s with
  | "" => false
  | String a s' => Ascii.eqb a c || contains c s'
  end.

(** [s.startswith("/")] and [s.endswith("/")]. *)
Definition startswith_sep (s : string) : bool :=
  match s with
  | String a _ => is_sep a
  | "" => false
  end.

Fixpoint endswith_sep (s : string) : bool :=
  match s with
  | "" => false
  | String a "" => is_sep a
  | String _ s' => endswith_sep s'
  end.

(** [s.count("/")]. *)
Fixpoint count_sep (s : string) : nat :=
  match s with
  | "" => 0
  | String a s' => (if is_sep a then 1 else 0) + count_sep s'
  end.

(** [s == "/" * len(s)]. *)
Fixpoint all_sep (s : string) : bool :=
  match s with
  | "" => true
  | String a s' => is_sep a && all_sep s'
  end.

(** [re.sub(r'/+', r'/', s)]: every maximal run of separators becomes one
    separator.  A separator is dropped exactly when another one follows. *)
Fixpoint collapse_seps (s : string) : string :=
  match s with
  | "" => ""
  | String a s' =>
      if is_sep a && startswith_sep s' then collapse_seps s'
      else String a (collapse_seps s')
  end.

(** [s[:-1]]. *)
Fixpoint drop_last (s : string) : string :=
  match s with
  | "" => ""
  | String _ "" => ""
  | String a s' => String a (drop_last s')
  end.

(** [s.replace(old, new)].  [skip] counts the characters of an occurrence
    of [old] that are still to be consumed. *)
Fixpoint replace_from (old new : string) (skip : nat) (s : string) : string :=
  match s with
  | "" => ""
  | String a s' =>
      match skip with
      | S k => replace_from old new k s'
      | O =>
          if prefix old s
          then new ++ replace_from old new (String.length old - 1) s'
          else String a (replace_from old new 0 s')
      end
  end.

Fixpoint intersperse (new : string) (s : string) : string :=
  match s with
  | "" => ""
  | String a s' => String a (new ++ intersperse new s')
  end.

Definition replace (old new s : string) : string :=
  match old with
  | "" => new ++ intersperse new s
  | _ => replace_from old new 0 s
  end.

(** [posixpath.join(a, *p)]. *)
Definition join2 (path b : string) : string :=
  if startswith_sep b then b
  else if (path =? "") || endswith_sep path then path ++ b
  else path ++ "/" ++ b.

Definition join (a : string) (p : list string) : string :=
  fold_left join2 p a.

(** [(p[:i], p[i:])] with [i = p.rfind('/') + 1]. *)
Fixpoint rsplit_sep (p : string) : string * string :=
  match p with
  | "" => ("", "")
  | String a p' =>
      let (h, t) := rsplit_sep p' in
      if h =? "" then
        if is_sep a then ("/", p') else ("", String a p')
      else (String a h, t)
  end.

(** [posixpath.basename]. *)
Definition basename (p : string) : string := snd (rsplit_sep p).

(** [s.rstrip("/")]. *)
Fixpoint rstrip_sep (s : string) : string :=
  match s with
  | "" => ""
  | String a s' =>
      let r := rstrip_sep s' in
      if is_sep a && (r =? "") then "" else String a r
  end.

(** [posixpath.dirname]. *)
Definition dirname (p : string) : string :=
  let head := fst (rsplit_sep p) in
  if negb (head =? "") && negb (all_sep head) then rstrip_sep head else head.

(** [s.split("/")]. *)
Fixpoint split_sep (s : string) : list string :=
  match s with
  | "" => [""]
  | String a s' =>
      match split_sep s' with
      | [] => [String a ""]
      | h :: t => if is_sep a then "" :: h :: t else String a h :: t
      end
  end.

(** ["/".join(comps)]. *)
Fixpoint join_sep (comps : list string) : string :=
  match comps with
  | [] => ""
  | [c] => c
  | c :: rest => c ++ "/" ++ join_sep rest
  end.

(** One turn of the component loop of [posixpath.normpath]; [new_comps] is
    kept with its last element first. *)
Definition normpath_step (initial_slashes : nat) (new_comps : list string)
    (comp : string) : list string :=
  if (comp =? "") || (comp =? ".") then new_comps
  else if negb (comp =? "..")
          || ((initial_slashes =? 0)%nat
              && match new_comps with [] => true | _ => false end)
          || match new_comps with last :: _ => last =? ".." | [] => false end
       then comp :: new_comps
       else match new_comps with _ :: rest => rest | [] => [] end.

Fixpoint repeat_sep (n : nat) : string :=
  match n with
  | O => ""
  | S k => String sep (repeat_sep k)
  end.

(** [posixpath.normpath]. *)
Definition normpath (path : string) : string :=
  if path =? "" then "."
  else
    let initial_slashes :=
      if startswith_sep path then
        if prefix "//" path && negb (prefix "///" path) then 2%nat else 1%nat
      else 0%nat in
    let comps :=
      rev (fold_left (normpath_step initial_slashes) (split_sep path) []) in
    let p := repeat_sep initial_slashes ++ join_sep comps in
    if p =? "" then "." else p.

(** [str.lower].  Python lower-cases by the case tables of Unicode, which
    the 8-bit characters of [string] do not carry, so the function is
    taken as given, like the client: what is proved holds for every
    function put in its place. *)
Class StrLower : Type := str_lower : string -> string.

(** [str.lower] on strings of ASCII characters, whose only cased
    characters are the letters A to Z.  It stands for [str.lower] in the
    runs on the in-memory client, whose headers are ASCII; on other
    characters it is not [str.lower]. *)
Definition lower_char (c : ascii) : ascii :=
  let n := nat_of_ascii c in
  if ((65 <=? n) && (n <=? 90))%nat then ascii_of_nat (n + 32) else c.

Fixpoint ascii_lower (s : string) : string :=
  match s with
  | "" => ""
  | String a s' => String (lower_char a) (ascii_lower s')
  end.

(** [sorted(l, key=key, reverse=True)] for integer keys: descending and
    stable, elements with equal keys keep the order they had in [l]. *)
Section Sorted.
Context {A : Type} (key : A -> Z).

Fixpoint insert_desc (x : A) (l : list A) : list A :=
  match l with
  | [] => [x]
  | y :: l' =>
      if (key x <? key y)%Z then y :: insert_desc x l' else x :: y :: l'
  end.

Definition sorted_reverse (l : list A) : list A :=
  fold_right insert_desc [] l.
End Sorted.

End Py.

(** ** A backtracking matcher for the fragment of Python's [re] that
       [PATH_STRUCTURE] uses *)

Module Re.

(** Single-character patterns: [.] (anything but a newline), a literal,
    and the negated class [[^c]] (which does accept a newline). *)
Inductive cclass : Type :=
| Dot
| Lit (c : ascii)
| NotChar (c : ascii).

Definition accepts (cc : cclass) (a : ascii) : bool :=
  match cc with
  | Dot => negb (Py.is_newline a)
  | Lit c => Ascii.eqb a c
  | NotChar c => negb (Ascii.eqb a c)
  end.

(** Repetition is only ever applied to single-character patterns, which
    keeps the matcher structurally recursive on the subject string. *)
Inductive regex : Type :=
| Chr (cc : cclass)
| Star (greedy : bool) (cc : cclass)
| Plus (greedy : bool) (cc : cclass)
| Seq (r1 r2 : regex)
| Opt (r : regex)
| Group (name : string) (r : regex).

(** Named groups that took part in the match, most recent first. *)
Definition captures : Type := list (string * string).

Fixpoint group (name : string) (caps : captures) : option string :=
  match caps with
  | [] => None
  | (n, v) :: rest => if n =? name then Some v else group name rest
  end.

Section Matcher.
Context {R : Type}.

Definition orelse (x : option R) (y : option R) : option R :=
  match x with
  | Some r => Some r
  | None => y
  end.

(** The continuation receives the text consumed and the text left. *)
Fixpoint star_greedy (cc : cclass) (s : string)
    (k : string -> string -> option R) : option R :=
  match s with
  | String a s' =>
      if accepts cc a
      then orelse (star_greedy cc s' (fun t rest => k (String a t) rest))
                  (k "" s)
      else k "" s
  | "" => k "" ""
  end.

Fixpoint star_lazy (cc : cclass) (s : string)
    (k : string -> string -> option R) : option R :=
  orelse (k "" s)
    match s with
    | String a s' =>
        if accepts cc a
        then star_lazy cc s' (fun t rest => k (String a t) rest)
        else None
    | "" => None
    end.

Definition star (greedy : bool) := if greedy then star_greedy else star_lazy.

Fixpoint run (r : regex) (s : string) (caps : captures)
    (k : string -> string -> captures -> option R) : option R :=
  match r with
  | Chr cc =>
      match s with
      | String a s' => if accepts cc a then k (String a "") s' caps else None
      | "" => None
      end
  | Star g cc => star g cc s (fun t rest => k t rest caps)
  | Plus g cc =>
      match s with
      | String a s' =>
          if accepts cc a
          then star g cc s' (fun t rest => k (String a t) rest caps)
          else None
      | "" => None
      end
  | Seq r1 r2 =>
      run r1 s caps (fun t1 s1 caps1 =>
        run r2 s1 caps1 (fun t2 s2 caps2 => k (t1 ++ t2) s2 caps2))
  | Opt r' => orelse (run r' s caps k) (k "" s caps)
  | Group name r' =>
      run r' s caps (fun t rest caps' => k t rest ((name, t) :: caps'))
  end.
End Matcher.

(** [pattern.match(s)]: anchored at the start of [s], not at its end. *)
Definition re_match (r : regex) (s : string) : option captures :=
  run r s [] (fun _ _ caps => Some caps).

End Re.

(** ** Exceptions and outcomes *)

(** The places where [main.py] raises [ValueError].  In the terms of the
    specification, [NotAValidPath] is its [InvalidPath],
    [NotADirectoryPath] its [NotADirectory], [NoSuchFileOrDirectory] its
    [NotFound] and the others are [InvalidOperand];
    [DirectoryNotEmptyError] below is its [NotEmpty]. *)
Inductive value_error : Type :=
| NotAValidPath             (* Match._get_match: "... is not a valid path" *)
| SrcNotAFile               (* Match.infer_operation_destination *)
| NotADirectoryPath         (* _validate_directory *)
| CannotCreateRoot          (* Pyminio.mkdirs *)
| DirectoryToFile           (* Pyminio._get_destination *)
| CopyDirectoryNotRecursive (* Pyminio.cp *)
| BucketNotRepresentable    (* Pyminio.get on a bucket *)
| NoSuchFileOrDirectory.    (* Pyminio.get *)

Inductive exn : Type :=
| ValueError (why : value_error)
| DirectoryNotEmptyError
| NoSuchKey                 (* minio.error *)
| BucketNotEmpty            (* minio.error *)
| StopIteration.

(** What running a piece of Python gives: a value, an exception, or (for
    the loops and the mutual recursion, which are run on fuel) no answer
    within the fuel given. *)
Inductive outcome (A : Type) : Type :=
| Return (a : A)
| Raise (e : exn)
| OutOfFuel.
Arguments Return {A} a.
Arguments Raise {A} e.
Arguments OutOfFuel {A}.

Definition ROOT : string := "/".

(** ** class Match *)

Module Match.

Import Re.

(** [r"/(?P<bucket>.*?)/+(?P<prefix>.*/+)?(?P<filename>.+[^/])?"] *)
Definition PATH_STRUCTURE : regex :=
  Seq (Chr (Lit "/"))
 (Seq (Group "bucket" (Star false Dot))
 (Seq (Plus true (Lit "/"))
 (Seq (Opt (Group "prefix" (Seq (Star true Dot) (Plus true (Lit "/")))))
      (Opt (Group "filename" (Seq (Plus true Dot) (Chr (NotChar "/")))))))).

Record AttrDict : Type := mkAttrDict {
  ad_bucket : string;
  ad_prefix : string;
  ad_filename : string
}.

Record t : Type := mk {
  _path : string;
  _match : AttrDict
}.

(** The cached property [path], which only depends on [_path]. *)
Definition normalize (raw : string) : string := Py.collapse_seps raw.

Definition path (m : t) : string := normalize (_path m).
Definition bucket (m : t) : string := ad_bucket (_match m).
Definition prefix (m : t) : string := ad_prefix (_match m).
Definition filename (m : t) : string := ad_filename (_match m).

Definition is_root (m : t) : bool := path m =? ROOT.

(** [match.group(name) or ''].  The group [bucket] takes part in every
    match, so that reading it this way changes nothing. *)
Definition group_or_empty (name : string) (caps : captures) : string :=
  match group name caps with
  | Some v => v
  | None => ""
  end.

Definition _get_match (raw : string) : outcome AttrDict :=
  if normalize raw =? ROOT then Return (mkAttrDict "" "" "")
  else
    match re_match PATH_STRUCTURE (normalize raw) with
    | None => Raise (ValueError NotAValidPath)
    | Some caps =>
        Return (mkAttrDict (group_or_empty "bucket" caps)
                           (group_or_empty "prefix" caps)
                           (group_or_empty "filename" caps))
    end.

(** [Match(path)], that is [__init__]. *)
Definition new (raw : string) : outcome t :=
  match _get_match raw with
  | Return a => Return (mk raw a)
  | Raise e => Raise e
  | OutOfFuel => OutOfFuel
  end.

Definition relative_path (m : t) : string :=
  Py.join (prefix m) [filename m].

Definition is_bucket (m : t) : bool := relative_path m =? "".
Definition is_dir (m : t) : bool := filename m =? "".
Definition is_file (m : t) : bool := negb (is_dir m).

Definition infer_operation_destination (src dst : t) : outcome t :=
  if negb (is_file src) then Raise (ValueError SrcNotAFile)
  else if is_file dst then Return dst
  else new (Py.join (path dst) [filename src]).

End Match.

(** ** The MinIO client, as far as [Pyminio] uses it *)

Module Minio.

(** [minio.definitions.Object]; timestamps are seconds on the UTC time
    line, counted from the epoch. *)
Record Object : Type := mkObject {
  bucket_name : string;
  object_name : string;
  is_dir : bool;
  last_modified : option Z;
  size : Z;
  metadata : list (string * string)
}.

(** [minio.definitions.Bucket] *)
Record Bucket : Type := mkBucket {
  name : string;
  creation_date : option Z
}.

(** The calls [Pyminio] makes on its [minio_obj], over the states [S] of the
    server behind it.  [remove_bucket] answers [None] for [BucketNotEmpty],
    [get_object] and [stat_object] answer [None] for [NoSuchKey]; these
    are the failures [Pyminio] handles, other failures of the server or
    of the connection are left out. *)
Record Client (S : Type) : Type := mkClient {
  bucket_exists : string -> S -> bool;
  make_bucket : string -> S -> S;
  put_object : string -> string -> string -> list (string * string) -> S -> S;
  list_objects : string -> string -> S -> list Object;
  list_buckets : S -> list Bucket;
  remove_objects : string -> list string -> S -> S;
  remove_object : string -> string -> S -> S;
  remove_bucket : string -> S -> option S;
  copy_object : string -> string -> string -> S -> S;
  get_object : string -> string -> S -> option string;
  stat_object : string -> string -> S -> option Object
}.
Arguments bucket_exists {S} _ _ _.
Arguments make_bucket {S} _ _ _.
Arguments put_object {S} _ _ _ _ _ _.
Arguments list_objects {S} _ _ _ _.
Arguments list_buckets {S} _ _.
Arguments remove_objects {S} _ _ _ _.
Arguments remove_object {S} _ _ _ _.
Arguments remove_bucket {S} _ _ _.
Arguments copy_object {S} _ _ _ _ _.
Arguments get_object {S} _ _ _ _.
Arguments stat_object {S} _ _ _ _.

(** The state-changing calls, as they are issued. *)
Inductive call : Type :=
| MakeBucket (bucket : string)
| PutObject (bucket key : string)
| RemoveObjects (bucket : string) (keys : list string)
| RemoveObject (bucket key : string)
| RemoveBucket (bucket : string)
| CopyObject (bucket key source : string).

End Minio.

(** ** The monad of [Pyminio] methods: server state, the calls issued so
       far, and exceptions *)

Record world (S : Type) : Type := mkWorld {
  store : S;
  calls : list Minio.call
}.
Arguments mkWorld {S} _ _.
Arguments store {S} _.
Arguments calls {S} _.

Definition M (S A : Type) : Type := world S -> outcome A * world S.

Definition ret {S A} (a : A) : M S A := fun w => (Return a, w).

Definition bind {S A B} (c : M S A) (k : A -> M S B) : M S B :=
  fun w =>
    match c w with
    | (Return a, w') => k a w'
    | (Raise e, w') => (Raise e, w')
    | (OutOfFuel, w') => (OutOfFuel, w')
    end.

Definition raise {S A} (e : exn) : M S A := fun w => (Raise e, w).

Definition out_of_fuel {S A} : M S A := fun w => (OutOfFuel, w).

(** A computation that does not touch the server. *)
Definition lift {S A} (o : outcome A) : M S A := fun w => (o, w).

Notation "x <- c ;; k" := (bind c (fun x => k))
  (at level 61, c at next level, right associativity).
Notation "c ;;; k" := (bind c (fun _ => k))
  (at level 61, right associativity).

(** [try: body except: handler] *)
Definition try_except {S A} (body : M S A) (handler : exn -> M S A) : M S A :=
  fun w =>
    match body w with
    | (Raise e, w') => handler e w'
    | r => r
    end.

(** [try: body finally: cleanup]: the cleanup runs whether the body
    returned or raised; an exception of the cleanup replaces the body's
    result, otherwise the body's result stands. *)
Definition try_finally {S A} (body : M S A) (cleanup : M S unit) : M S A :=
  fun w =>
    match body w with
    | (OutOfFuel, w1) => (OutOfFuel, w1)
    | (r, w1) =>
        match cleanup w1 with
        | (Return _, w2) => (r, w2)
        | (Raise e, w2) => (Raise e, w2)
        | (OutOfFuel, w2) => (OutOfFuel, w2)
        end
    end.

(** [for x in l: body(x)] *)
Fixpoint for_each {S A} (l : list A) (body : A -> M S unit) : M S unit :=
  match l with
  | [] => ret tt
  | x :: rest => body x ;;; for_each rest body
  end.

Definition when {S} (b : bool) (c : M S unit) : M S unit :=
  if b then c else ret tt.

Definition nonempty {A} (l : list A) : bool :=
  match l with
  | [] => false
  | _ => true
  end.

(** ** Results of [Pyminio.get] *)

Inductive meta_value : Type :=
| MBool (b : bool)
| MTime (t : option Z)
| MInt (n : Z)
| MStr (s : string).

(** A Python [dict] with string keys: insertion-ordered, one entry per key. *)
Definition dict : Type := list (string * meta_value).

Fixpoint dict_set (k : string) (v : meta_value) (d : dict) : dict :=
  match d with
  | [] => [(k, v)]
  | (k', v') :: d' =>
      if k' =? k then (k, v) :: d' else (k', v') :: dict_set k v d'
  end.

Definition dict_update (d extra : dict) : dict :=
  fold_left (fun acc kv => dict_set (fst kv) (snd kv) acc) extra d.

(** The dataclasses [File] and [Folder] (both [ObjectData]). *)
Inductive ObjectData : Type :=
| File (name full_path : string) (metadata : dict) (data : string)
| Folder (name full_path : string) (metadata : dict).

(** ** class Pyminio

    All methods but [from_credentials] and [put_file], which build the
    client and read a local file. *)

Section Pyminio.

Context {S : Type}.
(** [self.minio_obj] *)
Variable minio_obj : Minio.Client S.
(** [str.lower] *)
Context {lowering : Py.StrLower}.
(** The offset of the process's local time zone from UTC at the epoch, in
    seconds: [datetime.fromtimestamp(0)] is the local wall-clock reading
    at the epoch, and [pytz.UTC.localize] labels that reading as UTC. *)
Variable local_utc_offset : Z.

Local Abbreviation M := (M S).

(** *** The client calls, in the monad *)

Definition query {A} (f : S -> A) : M A :=
  fun w => (Return (f (store w)), w).

Definition command (c : Minio.call) (f : S -> S) : M unit :=
  fun w => (Return tt, mkWorld (f (store w)) (calls w ++ [c])).

Definition bucket_exists (b : string) : M bool :=
  query (Minio.bucket_exists minio_obj b).

Definition make_bucket (b : string) : M unit :=
  command (Minio.MakeBucket b) (Minio.make_bucket minio_obj b).

Definition put_object (b k data : string) (md : list (string * string))
    : M unit :=
  command (Minio.PutObject b k) (Minio.put_object minio_obj b k data md).

Definition list_objects (b p : string) : M (list Minio.Object) :=
  query (Minio.list_objects minio_obj b p).

Definition list_buckets : M (list Minio.Bucket) :=
  query (Minio.list_buckets minio_obj).

Definition remove_objects (b : string) (keys : list string) : M unit :=
  command (Minio.RemoveObjects b keys) (Minio.remove_objects minio_obj b keys).

Definition remove_object (b k : string) : M unit :=
  command (Minio.RemoveObject b k) (Minio.remove_object minio_obj b k).

Definition remove_bucket (b : string) : M unit :=
  fun w =>
    let w' := mkWorld (store w) (calls w ++ [Minio.RemoveBucket b]) in
    match Minio.remove_bucket minio_obj b (store w) with
    | Some s' => (Return tt, mkWorld s' (calls w'))
    | None => (Raise BucketNotEmpty, w')
    end.

Definition copy_object (b k source : string) : M unit :=
  command (Minio.CopyObject b k source)
          (Minio.copy_object minio_obj b k source).

Definition get_object (b k : string) : M string :=
  fun w =>
    match Minio.get_object minio_obj b k (store w) with
    | Some data => (Return data, w)
    | None => (Raise NoSuchKey, w)
    end.

Definition stat_object (b k : string) : M Minio.Object :=
  fun w =>
    match Minio.stat_object minio_obj b k (store w) with
    | Some o => (Return o, w)
    | None => (Raise NoSuchKey, w)
    end.

(** *** Module-level helpers *)

(** The decorator [_validate_directory]. *)
Definition _validate_directory {A} (func : string -> M A) (path : string)
    : M A :=
  m <- lift (Match.new path) ;;
  if Match.is_file m then raise (ValueError NotADirectoryPath)
  else func path.

(** [pytz.UTC.localize(datetime.fromtimestamp(0))] *)
Definition localized_fromtimestamp_0 : Z := local_utc_offset.

Definition get_last_modified (obj : Minio.Object) : Z :=
  match Minio.last_modified obj with
  | None => localized_fromtimestamp_0
  | Some t => t
  end.

Definition get_creation_date (obj : Minio.Bucket) : Z :=
  match Minio.creation_date obj with
  | None => localized_fromtimestamp_0
  | Some t => t
  end.

(** *** Methods *)

Definition mkdirs : string -> M unit :=
  _validate_directory (fun path =>
    m <- lift (Match.new path) ;;
    if Match.is_root m then raise (ValueError CannotCreateRoot)
    else
      there <- bucket_exists (Match.bucket m) ;;
      when (negb there) (make_bucket (Match.bucket m)) ;;;
      if Match.is_bucket m then ret tt
      else put_object (Match.bucket m) (Match.prefix m) "" []).

Definition _get_objects_at (m : Match.t) : M (list Minio.Object) :=
  objs <- list_objects (Match.bucket m) (Match.prefix m) ;;
  ret (Py.sorted_reverse get_last_modified objs).

Definition _get_buckets : M (list Minio.Bucket) :=
  bs <- list_buckets ;;
  ret (Py.sorted_reverse get_creation_date bs).

Definition _extract_metadata (detailed_metadata : list (string * string))
    : dict :=
  fold_left
    (fun acc kv =>
       dict_set (Py.str_lower (Py.replace "X-Amz-Meta-" "" (fst kv)))
                (MStr (snd kv)) acc)
    detailed_metadata [].

Definition listdir (path : string) (only_files : bool) : M (list string) :=
  _validate_directory (fun path =>
    m <- lift (Match.new path) ;;
    if Match.is_root m then
      if only_files then ret []
      else
        bs <- _get_buckets ;;
        ret (map (fun b => Minio.name b ++ "/") bs)
    else
      objs <- _get_objects_at m ;;
      ret (map (fun obj => Py.replace (Match.prefix m) "" (Minio.object_name obj))
               (filter (fun obj => negb only_files || negb (Minio.is_dir obj))
                       objs))) path.

(** [next(filter(pred, objects))] *)
Definition next_matching (pred : Minio.Object -> bool)
    (objects : list Minio.Object) : M Minio.Object :=
  match filter pred objects with
  | o :: _ => ret o
  | [] => raise StopIteration
  end.

Definition object_metadata (details : Minio.Object) : dict :=
  dict_update
    [("is_dir", MBool (Minio.is_dir details));
     ("last_modified", MTime (Minio.last_modified details));
     ("size", MInt (Minio.size details))]
    (_extract_metadata (Minio.metadata details)).

Definition get (path : string) : M ObjectData :=
  m <- lift (Match.new path) ;;
  if Match.is_bucket m then raise (ValueError BucketNotRepresentable)
  else
    found <-
      try_except
        (if Match.is_file m then
           data <- get_object (Match.bucket m) (Match.relative_path m) ;;
           details <- stat_object (Match.bucket m) (Match.relative_path m) ;;
           ret (Some data, details, Match.filename m)
         else
           let parent_directory :=
             Py.join (Py.dirname (Py.normpath (Match.prefix m))) [""] in
           objects <- list_objects (Match.bucket m) parent_directory ;;
           details <-
             next_matching
               (fun obj => Minio.object_name obj =? Match.relative_path m)
               objects ;;
           ret (None, details,
                Py.join (Py.basename (Py.normpath (Minio.object_name details)))
                        [""]))
        (fun e =>
           match e with
           | NoSuchKey | StopIteration =>
               raise (ValueError NoSuchFileOrDirectory)
           | _ => raise e
           end) ;;
    let '(data, details, name) := found in
    let metadata := object_metadata details in
    ret match data with
        | Some d => File name path metadata d
        | None => Folder name path metadata
        end.

Definition exists_ (path : string) : M bool :=
  fun w =>
    match Match.new path with
    | Raise (ValueError _) => (Return false, w)
    | Raise e => (Raise e, w)
    | OutOfFuel => (OutOfFuel, w)
    | Return m =>
        (if Match.is_root m then ret true
         else
           there <- bucket_exists (Match.bucket m) ;;
           if negb there then ret false
           else if Match.is_bucket m then ret true
           else
             try_except (get path ;;; ret true)
               (fun e =>
                  match e with
                  | ValueError _ => ret false
                  | _ => raise e
                  end)) w
    end.

Definition isdir (path : string) : M bool :=
  m <- lift (Match.new path) ;;
  e <- exists_ path ;;
  ret (e && Match.is_dir m).

(** [f"/{obj.bucket_name}/{obj.object_name}"] *)
Definition object_path (obj : Minio.Object) : string :=
  "/" ++ Minio.bucket_name obj ++ "/" ++ Minio.object_name obj.

(** One turn of the [while] loop of [rmdir], for the directory popped off
    [dirs_to_delete]; returns the [dirs] to be appended to the work list. *)
Definition rmdir_visit (m : Match.t) (recursive : bool) (current : string)
    : M (list string) :=
  current_dir_match <- lift (Match.new current) ;;
  objects_in_directory <- _get_objects_at current_dir_match ;;
  dirs <-
    (if nonempty objects_in_directory then
       if negb recursive then raise DirectoryNotEmptyError
       else
         let dirs :=
           map object_path (filter Minio.is_dir objects_in_directory) in
         let files :=
           map Minio.object_name
               (filter (fun obj => negb (Minio.is_dir obj))
                       objects_in_directory) in
         when (nonempty files) (remove_objects (Match.bucket m) files) ;;;
         ret dirs
     else ret []) ;;
  when (negb (nonempty dirs) && negb (Match.is_bucket current_dir_match))
       (remove_object (Match.bucket current_dir_match)
                      (Match.prefix current_dir_match)) ;;;
  ret dirs.

(** The [while len(dirs_to_delete)] loop. *)
Fixpoint rmdir_walk (fuel : nat) (m : Match.t) (recursive : bool)
    (dirs_to_delete : list string) : M unit :=
  match dirs_to_delete with
  | [] => ret tt
  | current :: rest =>
      match fuel with
      | O => out_of_fuel
      | Datatypes.S fuel' =>
          dirs <- rmdir_visit m recursive current ;;
          rmdir_walk fuel' m recursive (rest ++ dirs)
      end
  end.

(** [truncate], given the [rmdir] it calls. *)
Definition truncate_with (rmdir : string -> bool -> M unit) : M unit :=
  buckets <- listdir ROOT false ;;
  for_each buckets (fun bucket => rmdir (Py.join ROOT [bucket]) true).

Fixpoint rmdir (fuel : nat) (path : string) (recursive : bool) : M unit :=
  match fuel with
  | O => out_of_fuel
  | Datatypes.S fuel' =>
      _validate_directory (fun path =>
        m <- lift (Match.new path) ;;
        if Match.is_root m then
          if recursive then truncate_with (rmdir fuel')
          else raise DirectoryNotEmptyError
        else
          rmdir_walk fuel' m recursive [path] ;;;
          if Match.is_bucket m then
            try_except (remove_bucket (Match.bucket m))
              (fun e =>
                 match e with
                 | BucketNotEmpty => raise DirectoryNotEmptyError
                 | _ => raise e
                 end)
          else ret tt) path
  end.

Definition truncate (fuel : nat) : M unit := truncate_with (rmdir fuel).

Definition rm (fuel : nat) (path : string) (recursive : bool) : M unit :=
  d <- isdir path ;;
  if d then rmdir fuel path recursive
  else
    m <- lift (Match.new path) ;;
    remove_object (Match.bucket m) (Match.relative_path m).

Definition _get_destination (from_path to_path : string) : M Match.t :=
  from_match <- lift (Match.new from_path) ;;
  to_match <- lift (Match.new to_path) ;;
  if Match.is_file from_match then
    lift (Match.infer_operation_destination from_match to_match)
  else if Match.is_dir to_match then
    there <- exists_ (Match.path to_match) ;;
    if there then
      lift (Match.new
              (Py.join (Match.path to_match)
                 [Py.basename
                    (Py.drop_last
                       (Py.join (Match.bucket from_match)
                                [Match.prefix from_match]));
                  ""]))
    else ret to_match
  else raise (ValueError DirectoryToFile).

(** The entries of [files_to_copy]. *)
Record CopyTask : Type := mkCopyTask {
  task_from_path : string;
  task_to_path : string
}.

(** The [while len(dirs_to_copy) > 0] loop of [copy_recursively]; returns
    [files_to_copy]. *)
Fixpoint copy_walk (fuel : nat) (from_path to_path : string)
    (dirs_to_copy : list string) (files_to_copy : list CopyTask)
    : M (list CopyTask) :=
  match dirs_to_copy with
  | [] => ret files_to_copy
  | current :: rest =>
      match fuel with
      | O => out_of_fuel
      | Datatypes.S fuel' =>
          current_dir_match <- lift (Match.new current) ;;
          objects_in_directory <- _get_objects_at current_dir_match ;;
          let dirs :=
            map object_path (filter Minio.is_dir objects_in_directory) in
          let files :=
            map (fun obj =>
                   mkCopyTask (object_path obj)
                     (Py.join to_path
                        [Py.replace from_path "" (object_path obj)]))
                (filter (fun obj => negb (Minio.is_dir obj))
                        objects_in_directory) in
          when (negb (nonempty dirs))
               (mkdirs (Py.join to_path
                          [Py.replace from_path ""
                             (Match.path current_dir_match)])) ;;;
          copy_walk fuel' from_path to_path (rest ++ dirs)
                    (files_to_copy ++ files)
      end
  end.

(** [copy_recursively], given the [cp] it calls. *)
Definition copy_recursively_with (cp : string -> string -> bool -> M unit)
    (fuel : nat) (from_path to_path : string) : M unit :=
  _validate_directory (fun from_path =>
    files_to_copy <- copy_walk fuel from_path to_path [from_path] [] ;;
    for_each files_to_copy (fun obj_to_copy =>
      cp (task_from_path obj_to_copy) (task_to_path obj_to_copy) false))
    from_path.

Fixpoint cp (fuel : nat) (from_path to_path : string) (recursive : bool)
    : M unit :=
  match fuel with
  | O => out_of_fuel
  | Datatypes.S fuel' =>
      from_match <- lift (Match.new from_path) ;;
      to_match <- _get_destination from_path to_path ;;
      if Match.is_dir from_match then
        if recursive then
          copy_recursively_with (cp fuel') fuel'
            (Match.path from_match) (Match.path to_match)
        else raise (ValueError CopyDirectoryNotRecursive)
      else
        copy_object (Match.bucket to_match) (Match.relative_path to_match)
          (Py.join (Match.bucket from_match)
                   [Match.relative_path from_match])
  end.

Definition copy_recursively (fuel : nat) : string -> string -> M unit :=
  copy_recursively_with (cp fuel) fuel.

Definition mv (fuel : nat) (from_path to_path : string) (recursive : bool)
    : M unit :=
  to_match <- _get_destination from_path to_path ;;
  try_finally (cp fuel from_path to_path recursive)
    (src_there <- exists_ from_path ;;
     if src_there then
       dst_there <- exists_ (Match.path to_match) ;;
       when dst_there (rm fuel from_path recursive)
     else ret tt).

Definition put_data (path data : string) (metadata : list (string * string))
    : M unit :=
  m <- lift (Match.new path) ;;
  put_object (Match.bucket m) (Match.relative_path m) data metadata.

Definition get_last_object (path : string) : M (option ObjectData) :=
  _validate_directory (fun path =>
    m <- lift (Match.new path) ;;
    objects_names_in_dir <- listdir path true ;;
    match objects_names_in_dir with
    | [] => ret None
    | last_object_name :: _ =>
        let relative_path := Py.join (Match.prefix m) [last_object_name] in
        let new_path := Py.join ROOT [Match.bucket m; relative_path] in
        o <- get new_path ;;
        ret (Some o)
    end) path.

End Pyminio.

(** ** An in-memory client

    A small stand-in for a MinIO server, used to run the methods above on
    concrete inputs: a bucket is a list of objects stored under flat keys,
    and listing under a prefix groups the keys by their next path
    component, as the server does. *)

Module MemoryStore.

Record entry : Type := mkEntry {
  key : string;
  mtime : option Z;
  data : string;
  meta : list (string * string)
}.

Record bucket : Type := mkBucket {
  bname : string;
  created : option Z;
  objects : list entry
}.

Definition state : Type := list bucket.

Definition find_bucket (b : string) (s : state) : option bucket :=
  find (fun x => bname x =? b) s.

Definition objects_of (b : string) (s : state) : list entry :=
  match find_bucket b s with
  | Some x => objects x
  | None => []
  end.

Definition update_bucket (b : string) (f : list entry -> list entry)
    (s : state) : state :=
  map (fun x => if bname x =? b then mkBucket (bname x) (created x) (f (objects x))
                else x) s.

Fixpoint strip_prefix (p s : string) : option string :=
  match p, s with
  | "", _ => Some s
  | String a p', String b s' =>
      if Ascii.eqb a b then strip_prefix p' s' else None
  | String _ _, "" => None
  end.

(** The next path component, with its separator when it has one. *)
Fixpoint first_component (s : string) : string * bool :=
  match s with
  | "" => ("", false)
  | String a s' =>
      if Py.is_sep a then ("/", true)
      else let (c, d) := first_component s' in (String a c, d)
  end.

Definition listing_entry (b p : string) (e : entry) : option Minio.Object :=
  match strip_prefix p (key e) with
  | None | Some "" => None
  | Some rest =>
      let (c, d) := first_component rest in
      if d then Some (Minio.mkObject b (p ++ c) true None 0 [])
      else Some (Minio.mkObject b (key e) false (mtime e)
                   (Z.of_nat (String.length (data e))) (meta e))
  end.

Fixpoint dedupe (seen : list string) (l : list Minio.Object)
    : list Minio.Object :=
  match l with
  | [] => []
  | o :: rest =>
      if existsb (String.eqb (Minio.object_name o)) seen then dedupe seen rest
      else o :: dedupe (Minio.object_name o :: seen) rest
  end.

Fixpoint filter_map {A B} (f : A -> option B) (l : list A) : list B :=
  match l with
  | [] => []
  | x :: rest =>
      match f x with
      | Some y => y :: filter_map f rest
      | None => filter_map f rest
      end
  end.

Definition list_objects (b p : string) (s : state) : list Minio.Object :=
  dedupe [] (filter_map (listing_entry b p) (objects_of b s)).

Definition remove_key (k : string) (l : list entry) : list entry :=
  filter (fun e => negb (key e =? k)) l.

Definition put_entry (e : entry) (l : list entry) : list entry :=
  (remove_key (key e) l ++ [e])%list.

Definition find_entry (b k : string) (s : state) : option entry :=
  find (fun e => key e =? k) (objects_of b s).

(** The source of a copy is given as ["bucket/key"]. *)
Definition copy (b k source : string) (s : state) : state :=
  let (sb, _) := first_component source in
  match strip_prefix sb source with
  | Some sk =>
      match find_entry (Py.drop_last sb) sk s with
      | Some e =>
          update_bucket b (put_entry (mkEntry k (mtime e) (data e) (meta e))) s
      | None => s
      end
  | None => s
  end.

Definition client : Minio.Client state :=
  Minio.mkClient state
    (fun b s => match find_bucket b s with Some _ => true | None => false end)
    (fun b s => (s ++ [mkBucket b None []])%list)
    (fun b k d md s => update_bucket b (put_entry (mkEntry k None d md)) s)
    list_objects
    (fun s => map (fun x => Minio.mkBucket (bname x) (created x)) s)
    (fun b ks s => fold_left (fun acc k => update_bucket b (remove_key k) acc) ks s)
    (fun b k s => update_bucket b (remove_key k) s)
    (fun b s =>
       match objects_of b s with
       | [] => Some (filter (fun x => negb (bname x =? b)) s)
       | _ => None
       end)
    copy
    (fun b k s => option_map data (find_entry b k s))
    (fun b k s =>
       option_map
         (fun e => Minio.mkObject b k false (mtime e)
                     (Z.of_nat (String.length (data e))) (meta e))
         (find_entry b k s)).

Definition start (s : state) : world state := mkWorld s [].

End MemoryStore.

(** ** What [PATH_STRUCTURE] matches, read off the subject string

    These functions describe the groups of the first match the
    backtracking search finds; [re_match_PATH_STRUCTURE] below proves
    that the matcher computes exactly them. *)

Module PathSpec.

(** [(?P<bucket>.*?)] before [/+]: the text up to the first separator,
    which must come before any newline. *)
Fixpoint split_bucket (s : string) : option (string * string) :=
  match s with
  | "" => None
  | String a s' =>
      if Py.is_sep a then Some ("", s)
      else if Py.is_newline a then None
      else
        match split_bucket s' with
        | Some (b, r) => Some (String a b, r)
        | None => None
        end
  end.

Fixpoint drop_seps (s : string) : string :=
  match s with
  | String a s' => if Py.is_sep a then drop_seps s' else s
  | "" => ""
  end.

Fixpoint take_seps (s : string) : string :=
  match s with
  | String a s' => if Py.is_sep a then String a (take_seps s') else ""
  | "" => ""
  end.

(** [.*/+] greedy: the text up to the last separator of the first line. *)
Fixpoint split_prefix (s : string) : option (string * string) :=
  match s with
  | "" => None
  | String a s' =>
      if Py.is_newline a then None
      else
        match split_prefix s' with
        | Some (p, r) => Some (String a p, r)
        | None => if Py.is_sep a then Some (String a "", s') else None
        end
  end.

(** [.*[^/]] greedy: the rest of the first line and its newline, or the
    rest of the line when the subject ends there. *)
Fixpoint filename_tail (s : string) : option (string * string) :=
  match s with
  | "" => None
  | String a s' =>
      if Py.is_newline a then Some (String a "", s')
      else
        match filename_tail s' with
        | Some (f, r) => Some (String a f, r)
        | None => if Py.is_sep a then None else Some (String a "", s')
        end
  end.

(** [.+[^/]] greedy. *)
Definition split_filename (s : string) : option (string * string) :=
  match s with
  | "" => None
  | String a s' =>
      if Py.is_newline a then None
      else
        match filename_tail s' with
        | Some (f, r) => Some (String a f, r)
        | None => None
        end
  end.

(** The groups [bucket], [prefix] and [filename] of the match, [None] for
    a group that took no part in it. *)
Definition path_groups (p : string)
    : option (string * option string * option string) :=
  match p with
  | "" => None
  | String a s =>
      if Py.is_sep a then
        match split_bucket s with
        | None => None
        | Some (b, r) =>
            let r1 := drop_seps r in
            let '(pre, r2) :=
              match split_prefix r1 with
              | Some (p, r2) => (Some p, r2)
              | None => (None, r1)
              end in
            Some (b, pre, option_map fst (split_filename r2))
        end
      else None
  end.

Definition captures_of (g : string * option string * option string)
    : Re.captures :=
  let '(b, pre, f) := g in
  (match f with Some v => [("filename", v)] | None => [] end
   ++ match pre with Some v => [("prefix", v)] | None => [] end
   ++ [("bucket", b)])%list.

Definition or_empty (o : option string) : string :=
  match o with
  | Some v => v
  | None => ""
  end.

(** The name the specification gives to a listed object: its key with
    the parent prefix stripped from its front, and nothing else removed. *)
Definition strip_front (parent key : string) : string :=
  if prefix parent key
  then substring (String.length parent)
                 (String.length key - String.length parent) key
  else key.

(** No separator before the first newline. *)
Fixpoint line_no_sep (s : string) : bool :=
  match s with
  | "" => true
  | String a s' =>
      if Py.is_newline a then true
      else if Py.is_sep a then false
      else line_no_sep s'
  end.

(** No two separators in a row. *)
Fixpoint no_double_sep (s : string) : bool :=
  match s with
  | "" => true
  | String a s' => negb (Py.is_sep a && Py.startswith_sep s') && no_double_sep s'
  end.

End PathSpec.

(** ** The traversal of [rmdir], laid out

    The directories the [while] loop of [rmdir] pops off its work list, in
    order, each with the world it is visited in. *)

Section Traversal.

Context {S : Type}.
Variable minio_obj : Minio.Client S.
Context {lowering : Py.StrLower}.
Variable local_utc_offset : Z.

Fixpoint rmdir_visits (fuel : nat) (m : Match.t) (recursive : bool)
    (dirs_to_delete : list string) (w : world S) : list (string * world S) :=
  match dirs_to_delete with
  | [] => []
  | current :: rest =>
      match fuel with
      | O => []
      | Datatypes.S fuel' =>
          (current, w)
          :: match rmdir_visit minio_obj local_utc_offset m recursive current w with
             | (Return dirs, w') =>
                 rmdir_visits fuel' m recursive (rest ++ dirs) w'
             | _ => []
             end
      end
  end.

(** The calls issued between two worlds of one run. *)
Definition calls_since (w w' : world S) : list Minio.call :=
  skipn (List.length (calls w)) (calls w').

(** The calls issued by the visit of one directory. *)
Definition visit_calls (m : Match.t) (recursive : bool)
    (visit : string * world S) : list Minio.call :=
  calls_since (snd visit)
    (snd (rmdir_visit minio_obj local_utc_offset m recursive
            (fst visit) (snd visit))).

(** What [exists] answers in the world [w]. *)
Definition exists_value (path : string) (w : world S) : bool :=
  match fst (exists_ minio_obj path w) with
  | Return b => b
  | _ => false
  end.

End Traversal.

(** ** Runs on the in-memory client *)

(** The headers of the runs are ASCII. *)
#[global] Instance lower_in_runs : Py.StrLower := Py.ascii_lower.

Module Runs.

Import MemoryStore.

Definition file (k : string) (t : Z) : entry := mkEntry k (Some t) "data" [].
Definition marker (k : string) : entry := mkEntry k None "" [].

(** A bucket [b] with a directory [a/] that has a sub-directory [sub/],
    both with markers, and one file in the sub-directory. *)
Definition nested : state :=
  [mkBucket "b" (Some 5%Z) [marker "a/"; marker "a/sub/"; file "a/sub/y.txt" 20]].

(** A bucket [b] with a file and an empty bucket [c]. *)
Definition two_buckets : state :=
  [mkBucket "b" (Some 5%Z) [file "top.txt" 3];
   mkBucket "c" (Some 9%Z) []].

(** A directory [a/] whose sub-directory [ba/] repeats its name. *)
Definition repeated : state :=
  [mkBucket "b" (Some 5%Z) [file "a/ba/file.txt" 7]].

(** An object stamped half an hour after the epoch next to a
    sub-directory, which is listed without [last_modified]. *)
Definition early : state :=
  [mkBucket "b" (Some 5%Z) [file "old.txt" 1800; file "sub/x.txt" 7]].

Definition ref_a : Match.t := Match.mk "/b/a/" (Match.mkAttrDict "b" "a/" "").

End Runs.

(** ** Reading dictionaries, classifying calls *)

(** [d.get(k)] *)
Fixpoint dict_get (k : string) (d : dict) : option meta_value :=
  match d with
  | [] => None
  | (k', v) :: d' => if k' =? k then Some v else dict_get k d'
  end.

(** The key under which [_extract_metadata] files a header of the server:
    [key.replace('X-Amz-Meta-', '').lower()]. *)
Definition metadata_key {lowering : Py.StrLower} (header : string) : string :=
  Py.str_lower (Py.replace "X-Amz-Meta-" "" header).

(** The calls that take something away from the server, and those that
    add to it. *)
Definition removes (c : Minio.call) : bool :=
  match c with
  | Minio.RemoveObjects _ _ | Minio.RemoveObject _ _ | Minio.RemoveBucket _ =>
      true
  | _ => false
  end.

Definition adds (c : Minio.call) : bool := negb (removes c).

(** A computation that leaves the world as it finds it, and one that only
    issues calls of a given kind. *)
Definition read_only {S A : Type} (c : M S A) : Prop :=
  forall w, snd (c w) = w.

Definition emits {S A : Type} (kind : Minio.call -> bool) (c : M S A) : Prop :=
  forall w, exists d,
    calls (snd (c w)) = (calls w ++ d)%list /\ forallb kind d = true.

(** A bucket [b] with an empty directory [a/] (its marker only) and a
    directory [dir/] holding a file, and a bucket [c] in which both
    directories exist already. *)
Definition two_sources : MemoryStore.state :=
  [MemoryStore.mkBucket "b" (Some 5%Z)
     [Runs.marker "a/"; Runs.file "dir/f.txt" 3];
   MemoryStore.mkBucket "c" (Some 9%Z)
     [Runs.marker "a/"; Runs.file "dir/old.txt" 1]].

(** A bucket [b] with two files in a directory [docs/], and a bucket [e]
    whose directory [empty/] has its marker only. *)
Definition docs_and_empty : MemoryStore.state :=
  [MemoryStore.mkBucket "b" (Some 5%Z)
     [Runs.file "docs/a.txt" 3; Runs.file "docs/b.txt" 8];
   MemoryStore.mkBucket "e" (Some 9%Z) [Runs.marker "empty/"]].

(** ** Facts about strings *)

Lemma append_empty_r (s : string) : s ++ "" = s.
Proof. induction s as [|a s IH]; simpl; [reflexivity | now rewrite IH]. Qed.

Lemma append_assoc_s (s t u : string) : (s ++ t) ++ u = s ++ (t ++ u).
Proof. induction s as [|a s IH]; simpl; [reflexivity | now rewrite IH]. Qed.

Lemma sep_not_newline (a : ascii) : Py.is_sep a = true -> Py.is_newline a = false.
Proof.
  unfold Py.is_sep, Py.is_newline. intros H.
  apply Ascii.eqb_eq in H. subst a. reflexivity.
Qed.

(** ** The matcher computes the groups described by [PathSpec] *)

Section MatcherFacts.
Context {R : Type}.
Implicit Types k : string -> string -> option R.

Lemma orelse_some (x y : option R) : x <> None -> Re.orelse x y = x.
Proof. destruct x; simpl; congruence. Qed.

(** A greedy run of separators in front of a continuation that cannot
    fail takes every separator there is. *)
Lemma star_greedy_seps s k :
  (forall t r, k t r <> None) ->
  Re.star_greedy (Re.Lit "/") s k
  = k (PathSpec.take_seps s) (PathSpec.drop_seps s).
Proof.
  revert k. induction s as [|a s IH]; intros k T; simpl; [reflexivity|].
  change (Ascii.eqb a "/") with (Py.is_sep a).
  destruct (Py.is_sep a); [|reflexivity].
  rewrite IH by (intros; apply T).
  apply orelse_some, T.
Qed.

(** [.*?] in front of something that needs a separator next. *)
Lemma star_lazy_bucket s k :
  (forall t r, Py.startswith_sep r = false -> k t r = None) ->
  (forall t r, Py.startswith_sep r = true -> k t r <> None) ->
  Re.star_lazy Re.Dot s k
  = match PathSpec.split_bucket s with
    | Some (b, r) => k b r
    | None => None
    end.
Proof.
  revert k. induction s as [|a s IH]; intros k N T; simpl.
  - now rewrite N.
  - destruct (Py.is_sep a) eqn:Ea.
    + apply orelse_some, T. exact Ea.
    + rewrite (N "" (String a s)) by exact Ea. simpl.
      destruct (Py.is_newline a); simpl; [reflexivity|].
      rewrite IH by (intros; first [apply N | apply T]; assumption).
      now destruct (PathSpec.split_bucket s) as [[b r]|].
Qed.

Lemma split_prefix_sep_first a s :
  Py.is_sep a = true -> PathSpec.split_prefix (String a s) <> None.
Proof.
  intros Ea. simpl. rewrite (sep_not_newline _ Ea), Ea.
  now destruct (PathSpec.split_prefix s) as [[p r]|].
Qed.

Lemma star_greedy_seps_none s k :
  PathSpec.split_prefix s = None ->
  Re.star_greedy (Re.Lit "/") s k = k "" s.
Proof.
  intros Es. destruct s as [|b s]; simpl; [reflexivity|].
  change (Ascii.eqb b "/") with (Py.is_sep b).
  destruct (Py.is_sep b) eqn:Eb; [|reflexivity].
  now apply split_prefix_sep_first with (s := s) in Eb.
Qed.

(** [.*] greedy in front of [/+] and a continuation that cannot fail. *)
Lemma star_greedy_prefix s k h :
  (forall t r,
      k t r = match r with
              | String a r' =>
                  if Re.accepts (Re.Lit "/") a
                  then Re.star_greedy (Re.Lit "/") r'
                         (fun t2 s2 => h (t ++ String a t2) s2)
                  else None
              | "" => None
              end) ->
  (forall t r, h t r <> None) ->
  Re.star_greedy Re.Dot s k
  = match PathSpec.split_prefix s with
    | Some (p, r) => h p r
    | None => None
    end.
Proof.
  revert k h. induction s as [|a s IH]; intros k h K T; simpl.
  - now rewrite K.
  - assert (Hhere : k "" (String a s)
                    = if Py.is_sep a
                      then Re.star_greedy (Re.Lit "/") s
                             (fun t2 s2 => h (String a t2) s2)
                      else None) by (rewrite K; reflexivity).
    destruct (Py.is_newline a) eqn:En; simpl.
    + rewrite Hhere.
      destruct (Py.is_sep a) eqn:Ea; [|reflexivity].
      apply sep_not_newline in Ea. congruence.
    + rewrite (IH _ (fun t r => h (String a t) r))
        by (intros; first [apply T | rewrite K; reflexivity]).
      destruct (PathSpec.split_prefix s) as [[p r]|] eqn:Es.
      * apply orelse_some, T.
      * simpl. rewrite Hhere. destruct (Py.is_sep a); [|reflexivity].
        now apply star_greedy_seps_none.
Qed.

(** [.*] greedy in front of [[^/]] and a continuation that cannot fail. *)
Lemma star_greedy_filename s k h :
  (forall t r,
      k t r = match r with
              | String b r' =>
                  if Re.accepts (Re.NotChar "/") b
                  then h (t ++ String b "") r'
                  else None
              | "" => None
              end) ->
  (forall t r, h t r <> None) ->
  Re.star_greedy Re.Dot s k
  = match PathSpec.filename_tail s with
    | Some (f, r) => h f r
    | None => None
    end.
Proof.
  revert k h. induction s as [|a s IH]; intros k h K T; simpl.
  - now rewrite K.
  - assert (Hhere : k "" (String a s)
                    = if Py.is_sep a then None else h (String a "") s).
    { rewrite K. simpl. change (Ascii.eqb a "/") with (Py.is_sep a).
      now destruct (Py.is_sep a). }
    destruct (Py.is_newline a) eqn:En; simpl.
    + rewrite Hhere. destruct (Py.is_sep a) eqn:Ea; [|reflexivity].
      apply sep_not_newline in Ea. congruence.
    + rewrite (IH _ (fun t r => h (String a t) r))
        by (intros; first [apply T | rewrite K; reflexivity]).
      destruct (PathSpec.filename_tail s) as [[f r]|] eqn:Es.
      * apply orelse_some, T.
      * simpl. rewrite Hhere. now destruct (Py.is_sep a).
Qed.
End MatcherFacts.

Section RunFacts.
Context {R : Type}.
Implicit Types k : string -> string -> Re.captures -> option R.

Lemma run_seq r1 r2 s caps k :
  Re.run (Re.Seq r1 r2) s caps k
  = Re.run r1 s caps (fun t1 s1 caps1 =>
      Re.run r2 s1 caps1 (fun t2 s2 caps2 => k (t1 ++ t2) s2 caps2)).
Proof. reflexivity. Qed.

Lemma run_opt_total r s caps k :
  (forall t rest c, k t rest c <> None) ->
  Re.run (Re.Opt r) s caps k <> None.
Proof.
  intros T. simpl. destruct (Re.run r s caps k); simpl; [discriminate | apply T].
Qed.

Lemma run_opt_filename s caps k :
  (forall t rest c, k t rest c <> None) ->
  Re.run (Re.Opt (Re.Group "filename"
            (Re.Seq (Re.Plus true Re.Dot) (Re.Chr (Re.NotChar "/")))))
         s caps k
  = match PathSpec.split_filename s with
    | Some (f, r) => k f r (("filename", f) :: caps)
    | None => k "" s caps
    end.
Proof.
  intros T. cbn [Re.run Re.star].
  destruct s as [|a s]; [reflexivity|].
  cbn [Re.accepts PathSpec.split_filename].
  destruct (Py.is_newline a); cbn [negb]; [reflexivity|].
  rewrite (star_greedy_filename s _
             (fun f r => k (String a f) r (("filename", String a f) :: caps))).
  - destruct (PathSpec.filename_tail s) as [[f r]|]; [|reflexivity].
    apply orelse_some, T.
  - intros t r. destruct r as [|b r]; [reflexivity|].
    cbn [Re.accepts]. destruct (negb _); reflexivity.
  - intros; apply T.
Qed.

Lemma run_opt_prefix s caps k :
  (forall t rest c, k t rest c <> None) ->
  Re.run (Re.Opt (Re.Group "prefix"
            (Re.Seq (Re.Star true Re.Dot) (Re.Plus true (Re.Lit "/")))))
         s caps k
  = match PathSpec.split_prefix s with
    | Some (p, r) => k p r (("prefix", p) :: caps)
    | None => k "" s caps
    end.
Proof.
  intros T. cbn [Re.run Re.star].
  rewrite (star_greedy_prefix s _
             (fun p r => k p r (("prefix", p) :: caps))).
  - destruct (PathSpec.split_prefix s) as [[p r]|]; [|reflexivity].
    apply orelse_some, T.
  - intros t r. destruct r as [|a r]; [reflexivity|].
    cbn [Re.accepts]. destruct (Ascii.eqb _ _); reflexivity.
  - intros; apply T.
Qed.
End RunFacts.

Lemma split_bucket_rest (s b r : string) :
  PathSpec.split_bucket s = Some (b, r) -> Py.startswith_sep r = true.
Proof.
  revert b r. induction s as [|a s IH]; intros b r; simpl; [discriminate|].
  destruct (Py.is_sep a) eqn:Ea.
  - intros [= <- <-]. exact Ea.
  - destruct (Py.is_newline a); [discriminate|].
    destruct (PathSpec.split_bucket s) as [[b' r']|]; [|discriminate].
    intros [= <- <-]. now apply (IH b').
Qed.

(** The matcher, run on [PATH_STRUCTURE], finds the groups of [path_groups]. *)
Lemma re_match_PATH_STRUCTURE (p : string) :
  Re.re_match Match.PATH_STRUCTURE p
  = option_map PathSpec.captures_of (PathSpec.path_groups p).
Proof.
  unfold Re.re_match, Match.PATH_STRUCTURE.
  match goal with
  | |- context [Re.Seq (Re.Opt ?x) (Re.Opt ?y)] =>
      remember (Re.Seq (Re.Opt x) (Re.Opt y)) as tail eqn:Htail
  end.
  assert (Ttail : forall s caps, Re.run tail s caps (fun _ _ c => Some c) <> None).
  { intros s caps. subst tail. rewrite run_seq.
    apply run_opt_total. intros t rest c. apply run_opt_total. discriminate. }
  destruct p as [|a s]; [reflexivity|].
  cbn [Re.run Re.star Re.accepts PathSpec.path_groups].
  change (Ascii.eqb a "/") with (Py.is_sep a).
  destruct (Py.is_sep a); [|reflexivity].
  rewrite star_lazy_bucket.
  - destruct (PathSpec.split_bucket s) as [[b r]|] eqn:Eb; [|reflexivity].
    pose proof (split_bucket_rest _ _ _ Eb) as Hr.
    destruct r as [|c r]; [discriminate|]. simpl in Hr.
    change (Ascii.eqb c "/") with (Py.is_sep c). rewrite Hr.
    rewrite star_greedy_seps by (intros; apply Ttail).
    cbn [PathSpec.drop_seps]. rewrite Hr.
    subst tail. rewrite run_seq, run_opt_prefix
      by (intros; apply run_opt_total; discriminate).
    destruct (PathSpec.split_prefix (PathSpec.drop_seps r)) as [[pre r2]|];
      rewrite run_opt_filename by discriminate;
      destruct (PathSpec.split_filename _) as [[f r3]|]; reflexivity.
  - intros t r Hr. destruct r as [|c r]; [reflexivity|]. simpl in Hr.
    change (Ascii.eqb c "/") with (Py.is_sep c). now rewrite Hr.
  - intros t r Hr. destruct r as [|c r]; [discriminate|]. simpl in Hr.
    change (Ascii.eqb c "/") with (Py.is_sep c). rewrite Hr.
    rewrite star_greedy_seps by (intros; apply Ttail). apply Ttail.
Qed.

(** ** Normalisation *)

Lemma collapse_startswith (s : string) :
  Py.startswith_sep (Py.collapse_seps s) = Py.startswith_sep s.
Proof.
  induction s as [|a s IH]; simpl; [reflexivity|].
  destruct (Py.is_sep a) eqn:Ea; simpl.
  - destruct (Py.startswith_sep s) eqn:Es; simpl; [now rewrite IH | exact Ea].
  - exact Ea.
Qed.

Lemma collapse_no_double (s : string) :
  PathSpec.no_double_sep (Py.collapse_seps s) = true.
Proof.
  induction s as [|a s IH]; simpl; [reflexivity|].
  destruct (Py.is_sep a && Py.startswith_sep s) eqn:E; [exact IH|].
  simpl. now rewrite collapse_startswith, E, IH.
Qed.

Lemma collapse_fixed (s : string) :
  PathSpec.no_double_sep s = true -> Py.collapse_seps s = s.
Proof.
  induction s as [|a s IH]; simpl; [reflexivity|].
  intros H. apply andb_prop in H as [H1 H2].
  apply negb_true_iff in H1. rewrite H1. now rewrite IH.
Qed.

Lemma normalize_idempotent (raw : string) :
  Match.normalize (Match.normalize raw) = Match.normalize raw.
Proof. apply collapse_fixed, collapse_no_double. Qed.

(** The paths that normalise to the root: the non-empty runs of
    separators. *)
Lemma normalize_root (raw : string) :
  Match.normalize raw = ROOT <-> raw <> "" /\ Py.all_sep raw = true.
Proof.
  unfold Match.normalize, ROOT.
  induction raw as [|a s IH]; simpl.
  - split; [discriminate | now intros [H _]].
  - destruct (Py.is_sep a) eqn:Ea; simpl.
    + destruct s as [|b s].
      * simpl. apply Ascii.eqb_eq in Ea. subst a.
        split; [split; [discriminate | reflexivity] | reflexivity].
      * cbn [Py.startswith_sep]. destruct (Py.is_sep b) eqn:Eb.
        -- rewrite IH. cbn [Py.all_sep]. rewrite Eb.
           split; [intros [_ H]; split; [discriminate | exact H]
                  | intros [_ H]; split; [discriminate | exact H]].
        -- cbn [Py.collapse_seps Py.all_sep]. rewrite Eb.
           cbn [andb].
           destruct (Py.is_sep b && Py.startswith_sep s) eqn:E;
             [now rewrite Eb in E|].
           split; [discriminate | now intros [_ H]].
    + split; [|now intros [_ H]].
      intros [= -> _]. discriminate Ea.
Qed.

(** ** The shape of the groups *)

Lemma split_bucket_spec (s b r : string) :
  PathSpec.split_bucket s = Some (b, r) ->
  s = b ++ r /\ Py.contains "/" b = false /\ Py.contains Py.newline b = false
  /\ Py.startswith_sep r = true.
Proof.
  revert b r. induction s as [|a s IH]; intros b r; simpl; [discriminate|].
  destruct (Py.is_sep a) eqn:Ea.
  - intros [= <- <-]. simpl. now rewrite Ea.
  - destruct (Py.is_newline a) eqn:En; [discriminate|].
    destruct (PathSpec.split_bucket s) as [[b' r']|]; [|discriminate].
    intros [= <- <-]. destruct (IH b' r' eq_refl) as (-> & H1 & H2 & H3).
    simpl. change (Ascii.eqb a "/") with (Py.is_sep a).
    change (Ascii.eqb a Py.newline) with (Py.is_newline a).
    now rewrite Ea, En, H1, H2, H3.
Qed.

Lemma split_bucket_no_sep (s : string) :
  Py.contains "/" s = false -> PathSpec.split_bucket s = None.
Proof.
  induction s as [|a s IH]; simpl; [reflexivity|].
  change (Ascii.eqb a "/") with (Py.is_sep a).
  intros H. apply orb_false_iff in H as [Ea Hs]. rewrite Ea, (IH Hs).
  now destruct (Py.is_newline a).
Qed.

Lemma split_bucket_here (b r : string) :
  Py.contains "/" b = false -> Py.contains Py.newline b = false ->
  Py.startswith_sep r = true ->
  PathSpec.split_bucket (b ++ r) = Some (b, r).
Proof.
  intros Hs Hn Hr. induction b as [|a b IH]; simpl in *.
  - destruct r as [|c r]; [discriminate|]. simpl in *. now rewrite Hr.
  - change (Ascii.eqb a "/") with (Py.is_sep a) in Hs.
    change (Ascii.eqb a Py.newline) with (Py.is_newline a) in Hn.
    apply orb_false_iff in Hs as [Ea Hs]. apply orb_false_iff in Hn as [En Hn].
    now rewrite Ea, En, (IH Hs Hn).
Qed.

Lemma split_prefix_none (s : string) :
  PathSpec.split_prefix s = None <-> PathSpec.line_no_sep s = true.
Proof.
  induction s as [|a s IH]; simpl; [easy|].
  destruct (Py.is_newline a); [easy|].
  destruct (PathSpec.split_prefix s) as [[p r]|].
  - destruct (Py.is_sep a); [easy|].
    split; [discriminate|]. intros H. apply IH in H. discriminate.
  - destruct (Py.is_sep a); [easy|]. split; [|reflexivity].
    intros _. now apply IH.
Qed.

Lemma split_prefix_spec (s p r : string) :
  PathSpec.split_prefix s = Some (p, r) ->
  s = p ++ r /\ Py.endswith_sep p = true /\ Py.contains Py.newline p = false
  /\ PathSpec.line_no_sep r = true.
Proof.
  revert p r. induction s as [|a s IH]; intros p r; simpl; [discriminate|].
  destruct (Py.is_newline a) eqn:En; [discriminate|].
  destruct (PathSpec.split_prefix s) as [[p' r']|] eqn:Es.
  - intros [= <- <-]. destruct (IH p' r' eq_refl) as (-> & H1 & H2 & H3).
    simpl. change (Ascii.eqb a Py.newline) with (Py.is_newline a).
    rewrite En, H2, H3. repeat split; try reflexivity.
    destruct p'; [discriminate | exact H1].
  - destruct (Py.is_sep a) eqn:Ea; [|discriminate].
    intros [= <- <-]. simpl.
    change (Ascii.eqb a Py.newline) with (Py.is_newline a).
    rewrite En, Ea. repeat split; try reflexivity. now apply split_prefix_none.
Qed.

Lemma filename_tail_no_sep (s f r : string) :
  PathSpec.line_no_sep s = true ->
  PathSpec.filename_tail s = Some (f, r) ->
  Py.contains "/" f = false.
Proof.
  revert f r. induction s as [|a s IH]; intros f r; simpl; [discriminate|].
  destruct (Py.is_newline a) eqn:En.
  - intros _ [= <- <-]. simpl.
    apply Ascii.eqb_eq in En. subst a. reflexivity.
  - destruct (Py.is_sep a) eqn:Ea; [discriminate|]. intros Hs.
    destruct (PathSpec.filename_tail s) as [[f' r']|].
    + intros [= <- <-]. simpl. change (Ascii.eqb a "/") with (Py.is_sep a).
      rewrite Ea. now apply (IH f' r').
    + intros [= <- <-]. simpl. change (Ascii.eqb a "/") with (Py.is_sep a).
      now rewrite Ea.
Qed.

Lemma split_filename_no_sep (s f r : string) :
  PathSpec.line_no_sep s = true ->
  PathSpec.split_filename s = Some (f, r) ->
  Py.contains "/" f = false /\ f <> "".
Proof.
  destruct s as [|a s]; simpl; [discriminate|].
  destruct (Py.is_newline a); [discriminate|].
  destruct (Py.is_sep a) eqn:Ea; [discriminate|]. intros Hs.
  destruct (PathSpec.filename_tail s) as [[f' r']|] eqn:Ef; [|discriminate].
  intros [= <- <-]. split; [|discriminate]. simpl.
  change (Ascii.eqb a "/") with (Py.is_sep a). rewrite Ea.
  now apply (filename_tail_no_sep s f' r').
Qed.

Lemma drop_seps_no_double (c : ascii) (r : string) :
  Py.is_sep c = true -> PathSpec.no_double_sep (String c r) = true ->
  PathSpec.drop_seps (String c r) = r.
Proof.
  intros Hc. simpl. rewrite Hc. simpl. intros H.
  apply andb_prop in H as [H _]. apply negb_true_iff in H.
  destruct r as [|d r]; [reflexivity|]. simpl in *. now rewrite H.
Qed.

Lemma no_double_sep_app_r (s t : string) :
  PathSpec.no_double_sep (s ++ t) = true -> PathSpec.no_double_sep t = true.
Proof.
  induction s as [|a s IH]; simpl; [easy|].
  intros H. apply andb_prop in H as [_ H]. now apply IH.
Qed.

(** ** What [Match(path)] returns *)

Lemma _get_match_spec (raw : string) :
  Match._get_match raw
  = if Match.normalize raw =? ROOT then Return (Match.mkAttrDict "" "" "")
    else
      match PathSpec.path_groups (Match.normalize raw) with
      | None => Raise (ValueError NotAValidPath)
      | Some (b, pre, f) =>
          Return (Match.mkAttrDict b (PathSpec.or_empty pre)
                                   (PathSpec.or_empty f))
      end.
Proof.
  unfold Match._get_match. rewrite re_match_PATH_STRUCTURE.
  destruct (Match.normalize raw =? ROOT); [reflexivity|].
  destruct (PathSpec.path_groups _) as [[[b pre] f]|]; [|reflexivity].
  destruct pre, f; reflexivity.
Qed.

Lemma new_inv (raw : string) (m : Match.t) :
  Match.new raw = Return m ->
  Match._path m = raw /\ Match._get_match raw = Return (Match._match m).
Proof.
  unfold Match.new. destruct (Match._get_match raw); [|discriminate..].
  now intros [= <-].
Qed.

Lemma new_raises (raw : string) (e : exn) :
  Match.new raw = Raise e -> e = ValueError NotAValidPath.
Proof.
  unfold Match.new. rewrite _get_match_spec.
  destruct (Match.normalize raw =? ROOT); [discriminate|].
  destruct (PathSpec.path_groups _) as [[[b pre] f]|]; [discriminate|].
  now intros [= <-].
Qed.

Lemma new_never_out_of_fuel (raw : string) : Match.new raw <> OutOfFuel.
Proof.
  unfold Match.new. rewrite _get_match_spec.
  destruct (Match.normalize raw =? ROOT); [discriminate|].
  now destruct (PathSpec.path_groups _) as [[[b pre] f]|].
Qed.

Lemma new_root (raw : string) (m : Match.t) :
  Match.new raw = Return m -> Match.is_root m = true ->
  Match.bucket m = "" /\ Match.prefix m = "" /\ Match.filename m = "".
Proof.
  intros H R. apply new_inv in H as [Hp Hm].
  unfold Match.is_root, Match.path in R. rewrite Hp in R.
  rewrite _get_match_spec, R in Hm.
  unfold Match.bucket, Match.prefix, Match.filename.
  injection Hm as <-. now repeat split.
Qed.

(** A reference that is not the root carries the groups of the match on
    its normalised path. *)
Lemma new_groups (raw : string) (m : Match.t) :
  Match.new raw = Return m -> Match.is_root m = false ->
  exists pre f,
    PathSpec.path_groups (Match.path m) = Some (Match.bucket m, pre, f)
    /\ Match.prefix m = PathSpec.or_empty pre
    /\ Match.filename m = PathSpec.or_empty f.
Proof.
  intros H R. apply new_inv in H as [Hp Hm].
  unfold Match.is_root, Match.path in *. rewrite Hp in *.
  rewrite _get_match_spec, R in Hm.
  destruct (PathSpec.path_groups _) as [[[b pre] f]|]; [|discriminate].
  unfold Match.bucket, Match.prefix, Match.filename.
  injection Hm as <-. now exists pre, f.
Qed.

Lemma path_no_double (m : Match.t) :
  PathSpec.no_double_sep (Match.path m) = true.
Proof. apply collapse_no_double. Qed.

(** The groups of a match on a normalised path. *)
Lemma path_groups_shape (p b : string) (pre f : option string) :
  PathSpec.path_groups p = Some (b, pre, f) ->
  PathSpec.no_double_sep p = true ->
  exists r2,
    p = "/" ++ b ++ "/" ++ PathSpec.or_empty pre ++ r2
    /\ b <> "" /\ Py.contains "/" b = false /\ Py.contains Py.newline b = false
    /\ (pre = None \/ exists v, pre = Some v /\ Py.endswith_sep v = true
                               /\ Py.contains Py.newline v = false)
    /\ PathSpec.line_no_sep r2 = true
    /\ f = option_map fst (PathSpec.split_filename r2).
Proof.
  destruct p as [|a s]; simpl; [discriminate|].
  destruct (Py.is_sep a) eqn:Ea; [|discriminate].
  apply Ascii.eqb_eq in Ea. subst a.
  destruct (PathSpec.split_bucket s) as [[b' r]|] eqn:Eb; [|discriminate].
  intros H ND.
  destruct (split_bucket_spec _ _ _ Eb) as (-> & Hb1 & Hb2 & Hr).
  destruct r as [|c r]; [discriminate|]. simpl in Hr.
  assert (Hc : c = "/"%char) by now apply Ascii.eqb_eq. 
  assert (NDr : PathSpec.no_double_sep (String c r) = true).
  { apply andb_prop in ND as [_ ND]. now apply no_double_sep_app_r in ND. }
  rewrite (drop_seps_no_double c r Hr NDr) in H.
  assert (Hbne : b' <> "").
  { intros ->. simpl in ND. now rewrite Hr in ND. }
  destruct (PathSpec.split_prefix r) as [[v r2]|] eqn:Ep.
  - injection H as <- <- <-.
    destruct (split_prefix_spec _ _ _ Ep) as (-> & Hv1 & Hv2 & Hr2).
    exists r2. subst c. simpl. repeat split; try assumption.
    right. now exists v.
  - injection H as <- <- <-. exists r. subst c. simpl.
    repeat split; try assumption; [now left | now apply split_prefix_none].
Qed.

(** ** More facts about separators *)

Lemma contains_app (c : ascii) (s t : string) :
  Py.contains c (s ++ t) = Py.contains c s || Py.contains c t.
Proof.
  induction s as [|a s IH]; simpl; [reflexivity|].
  now rewrite IH, orb_assoc.
Qed.

Lemma count_sep_app (s t : string) :
  Py.count_sep (s ++ t) = Py.count_sep s + Py.count_sep t.
Proof.
  induction s as [|a s IH]; simpl; [reflexivity|]. rewrite IH. lia.
Qed.

Lemma no_sep_startswith (s : string) :
  Py.contains "/" s = false -> Py.startswith_sep s = false.
Proof.
  destruct s as [|a s]; simpl; [reflexivity|].
  intros H. now apply orb_false_iff in H as [H _].
Qed.

Lemma no_sep_endswith (s : string) :
  Py.contains "/" s = false -> Py.endswith_sep s = false.
Proof.
  induction s as [|a s IH]; simpl; [reflexivity|].
  intros H. apply orb_false_iff in H as [Ha Hs].
  destruct s; [exact Ha | now apply IH].
Qed.

Lemma no_sep_no_double (s : string) :
  Py.contains "/" s = false -> PathSpec.no_double_sep s = true.
Proof.
  induction s as [|a s IH]; simpl; [reflexivity|].
  change (Ascii.eqb a "/") with (Py.is_sep a).
  intros H. apply orb_false_iff in H as [Ha Hs].
  now rewrite Ha, (IH Hs).
Qed.

Lemma endswith_sep_app (s t : string) :
  t <> "" -> Py.endswith_sep (s ++ t) = Py.endswith_sep t.
Proof.
  intros Ht. induction s as [|a s IH]; simpl; [reflexivity|].
  rewrite IH. destruct (s ++ t) eqn:E; [|reflexivity].
  destruct s; simpl in E; [congruence | discriminate].
Qed.

Lemma no_double_sep_app (s t : string) :
  PathSpec.no_double_sep s = true -> Py.contains "/" t = false ->
  PathSpec.no_double_sep (s ++ t) = true.
Proof.
  intros Hs Ht. induction s as [|a s IH]; simpl in *.
  - now apply no_sep_no_double.
  - apply andb_prop in Hs as [H1 H2]. rewrite (IH H2), andb_true_r.
    destruct s as [|b s]; simpl in *; [|exact H1].
    now rewrite (no_sep_startswith t Ht), andb_false_r.
Qed.

Lemma line_no_sep_no_newline (s : string) :
  PathSpec.line_no_sep s = true -> Py.contains Py.newline s = false ->
  Py.contains "/" s = false.
Proof.
  induction s as [|a s IH]; simpl; [reflexivity|].
  change (Ascii.eqb a Py.newline) with (Py.is_newline a).
  change (Ascii.eqb a "/") with (Py.is_sep a).
  intros H N. apply orb_false_iff in N as [Na Ns]. rewrite Na in H.
  destruct (Py.is_sep a); [discriminate|]. now apply IH.
Qed.

Lemma no_sep_line_no_sep (s : string) :
  Py.contains "/" s = false -> PathSpec.line_no_sep s = true.
Proof.
  induction s as [|a s IH]; simpl; [reflexivity|].
  change (Ascii.eqb a "/") with (Py.is_sep a).
  intros H. apply orb_false_iff in H as [Ha Hs]. rewrite Ha, (IH Hs).
  now destruct (Py.is_newline a).
Qed.

Lemma split_prefix_here (v t : string) :
  Py.contains Py.newline v = false -> Py.endswith_sep v = true ->
  PathSpec.line_no_sep t = true ->
  PathSpec.split_prefix (v ++ t) = Some (v, t).
Proof.
  intros Hn He Ht. induction v as [|a v IH]; [discriminate|].
  simpl in *. change (Ascii.eqb a Py.newline) with (Py.is_newline a) in Hn.
  apply orb_false_iff in Hn as [Na Nv]. rewrite Na.
  destruct v as [|b v].
  - simpl. apply split_prefix_none in Ht. now rewrite Ht, He.
  - now rewrite (IH Nv He).
Qed.

Lemma filename_tail_idem (s f r : string) :
  PathSpec.filename_tail s = Some (f, r) ->
  PathSpec.filename_tail f = Some (f, "").
Proof.
  revert f r. induction s as [|a s IH]; intros f r; simpl; [discriminate|].
  destruct (Py.is_newline a) eqn:En.
  - intros [= <- <-]. simpl. now rewrite En.
  - destruct (PathSpec.filename_tail s) as [[f' r']|].
    + intros [= <- <-]. simpl. now rewrite En, (IH f' r').
    + destruct (Py.is_sep a) eqn:Ea; [discriminate|].
      intros [= <- <-]. simpl. now rewrite En, Ea.
Qed.

Lemma split_filename_idem (s f r : string) :
  PathSpec.split_filename s = Some (f, r) ->
  PathSpec.split_filename f = Some (f, "").
Proof.
  destruct s as [|a s]; simpl; [discriminate|].
  destruct (Py.is_newline a) eqn:En; [discriminate|].
  destruct (PathSpec.filename_tail s) as [[f' r']|] eqn:Ef; [|discriminate].
  intros [= <- <-]. simpl. now rewrite En, (filename_tail_idem _ _ _ Ef).
Qed.

Lemma join_one (a b : string) : Py.join a [b] = Py.join2 a b.
Proof. reflexivity. Qed.

Lemma join2_plain (a b : string) :
  Py.startswith_sep b = false -> a = "" \/ Py.endswith_sep a = true ->
  Py.join2 a b = a ++ b.
Proof.
  intros Hb Ha. unfold Py.join2. rewrite Hb.
  destruct Ha as [-> | ->]; [reflexivity | now rewrite orb_true_r].
Qed.

(** A file reference: its name is what [.+[^/]] matched, on a stretch
    without separators. *)
Lemma file_reference (raw : string) (m : Match.t) :
  Match.new raw = Return m -> Match.is_file m = true ->
  Match.is_root m = false
  /\ Match.filename m <> ""
  /\ Py.contains "/" (Match.filename m) = false
  /\ PathSpec.split_filename (Match.filename m) = Some (Match.filename m, "").
Proof.
  intros H F. unfold Match.is_file, Match.is_dir in F.
  apply negb_true_iff in F. apply String.eqb_neq in F.
  destruct (Match.is_root m) eqn:R.
  { destruct (new_root _ _ H R) as (_ & _ & E). congruence. }
  destruct (new_groups _ _ H R) as (pre & f & G & _ & Ef).
  destruct (path_groups_shape _ _ _ _ G (path_no_double m))
    as (r2 & _ & _ & _ & _ & _ & L & ->).
  destruct (PathSpec.split_filename r2) as [[v r]|] eqn:E;
    simpl in Ef; [|congruence].
  rewrite Ef. destruct (split_filename_no_sep _ _ _ L E) as [H1 H2].
  repeat split; try assumption. exact (split_filename_idem _ _ _ E).
Qed.

(** ** The resolver: root, shape of references, rejected paths *)

(** C7: [Match("/")] is the root reference, with [bucket], [prefix] and
    [filename] all empty; and a reference has all three empty only when
    its (normalised) path is the root path, which is the case exactly for
    the non-empty runs of separators. *)
Theorem root_is_the_only_empty_reference :
  Match.new ROOT = Return (Match.mk ROOT (Match.mkAttrDict "" "" ""))
  /\ forall (raw : string) (m : Match.t),
       Match.new raw = Return m ->
       ((Match.bucket m = "" /\ Match.prefix m = "" /\ Match.filename m = "")
        <-> Match.path m = ROOT)
       /\ (Match.path m = ROOT <-> raw <> "" /\ Py.all_sep raw = true).
Proof.
  split; [reflexivity|]. intros raw m H. split.
  - split.
    + intros (Hb & _ & _).
      destruct (Match.is_root m) eqn:R; [now apply String.eqb_eq in R|].
      destruct (new_groups _ _ H R) as (pre & f & G & _).
      destruct (path_groups_shape _ _ _ _ G (path_no_double m))
        as (r2 & _ & Hne & _).
      congruence.
    + intros R. apply (new_root raw m H). unfold Match.is_root.
      now apply String.eqb_eq.
  - apply new_inv in H as [Hp _]. unfold Match.path. rewrite Hp.
    apply normalize_root.
Qed.

Lemma root_is_the_only_empty_reference_witness :
  Match.path (Match.mk "//" (Match.mkAttrDict "" "" "")) = ROOT.
Proof.
  apply (proj1 (proj1 (proj2 root_is_the_only_empty_reference "//" _ eq_refl))).
  repeat split; reflexivity.
Defined.

(** C8: for every path other than the root that [Match] accepts, the
    bucket is non-empty and has no separator, the filename has no
    separator, the prefix is empty or ends with a separator, and
    [relative_path] is the prefix followed by the filename. *)
Theorem non_root_reference_shape (raw : string) (m : Match.t) :
  Match.new raw = Return m ->
  Match.is_root m = false ->
  Match.bucket m <> ""
  /\ Py.contains "/" (Match.bucket m) = false
  /\ Py.contains "/" (Match.filename m) = false
  /\ (Match.prefix m = "" \/ Py.endswith_sep (Match.prefix m) = true)
  /\ Match.relative_path m = Match.prefix m ++ Match.filename m.
Proof.
  intros H R.
  destruct (new_groups _ _ H R) as (pre & f & G & Ep & Ef).
  destruct (path_groups_shape _ _ _ _ G (path_no_double m))
    as (r2 & _ & Hne & Hb & _ & Hpre & L & ->).
  assert (Hf : Py.contains "/" (Match.filename m) = false).
  { rewrite Ef. destruct (PathSpec.split_filename r2) as [[v r]|] eqn:E;
      [|reflexivity].
    now destruct (split_filename_no_sep _ _ _ L E). }
  assert (Hp : Match.prefix m = "" \/ Py.endswith_sep (Match.prefix m) = true).
  { rewrite Ep. destruct Hpre as [-> | (v & -> & Hv & _)]; [now left | now right]. }
  repeat split; try assumption.
  unfold Match.relative_path. rewrite join_one.
  apply join2_plain; [now apply no_sep_startswith | exact Hp].
Qed.

Lemma non_root_reference_shape_witness :
  Match.relative_path
    (Match.mk "/foo//bar1/baz" (Match.mkAttrDict "foo" "bar1/" "baz"))
  = "bar1/" ++ "baz".
Proof.
  apply (non_root_reference_shape "/foo//bar1/baz" _ eq_refl eq_refl).
Defined.

(** C10: a path ["/name"] with a non-empty [name] that has no separator is
    rejected with "not a valid path"; every accepted path other than the
    root has at least two separators once normalised. *)
Theorem single_component_rejected :
  (forall name : string,
      name <> "" -> Py.contains "/" name = false ->
      Match.new ("/" ++ name) = Raise (ValueError NotAValidPath))
  /\ (forall (raw : string) (m : Match.t),
         Match.new raw = Return m -> Match.is_root m = false ->
         2 <= Py.count_sep (Match.path m)).
Proof.
  split.
  - intros name Hne Hs.
    assert (N : Match.normalize ("/" ++ name) = "/" ++ name).
    { apply collapse_fixed. simpl.
      now rewrite (no_sep_startswith _ Hs), (no_sep_no_double _ Hs). }
    unfold Match.new. rewrite _get_match_spec, N.
    change ("/" ++ name) with (String "/" name).
    destruct (String "/" name =? ROOT) eqn:E.
    { apply String.eqb_eq in E. injection E. congruence. }
    unfold PathSpec.path_groups. change (Py.is_sep "/") with true. cbv iota.
    now rewrite (split_bucket_no_sep _ Hs).
  - intros raw m H R.
    destruct (new_groups _ _ H R) as (pre & f & G & _).
    destruct (path_groups_shape _ _ _ _ G (path_no_double m))
      as (r2 & -> & _).
    simpl. rewrite count_sep_app. simpl. lia.
Qed.

Lemma single_component_rejected_witness :
  Match.new ("/" ++ "name") = Raise (ValueError NotAValidPath)
  /\ 2 <= Py.count_sep
            (Match.path (Match.mk "/foo/" (Match.mkAttrDict "foo" "" ""))).
Proof.
  split.
  - apply (proj1 single_component_rejected "name"); [discriminate | reflexivity].
  - apply (proj2 single_component_rejected "/foo/" _ eq_refl eq_refl).
Defined.

(** ** Destination inference *)

(** A directory reference whose normalised path ends with a separator and
    has no newline is all bucket and prefix. *)
Lemma directory_reference_path (raw : string) (m : Match.t) :
  Match.new raw = Return m -> Match.is_root m = false ->
  Py.endswith_sep (Match.path m) = true ->
  Py.contains Py.newline (Match.path m) = false ->
  exists pre,
    PathSpec.path_groups (Match.path m) = Some (Match.bucket m, pre, None)
    /\ Match.prefix m = PathSpec.or_empty pre
    /\ Match.path m = "/" ++ Match.bucket m ++ "/" ++ Match.prefix m
    /\ (pre = None \/ exists v, pre = Some v /\ Py.endswith_sep v = true
                               /\ Py.contains Py.newline v = false).
Proof.
  intros H R E N.
  destruct (new_groups _ _ H R) as (pre & f & G & Ep & _).
  destruct (path_groups_shape _ _ _ _ G (path_no_double m))
    as (r2 & P & _ & _ & _ & Hpre & L & Hf).
  assert (r2 = "") as ->.
  { destruct (string_dec r2 "") as [Z | Hr]; [exact Z|]. exfalso.
    rewrite P in N, E.
    repeat (rewrite ?contains_app in N; simpl in N;
            apply orb_false_iff in N as [_ N]).
    replace ("/" ++ Match.bucket m ++ "/" ++ PathSpec.or_empty pre ++ r2)
      with (("/" ++ Match.bucket m ++ "/" ++ PathSpec.or_empty pre) ++ r2) in E
      by (simpl; now rewrite !append_assoc_s).
    rewrite (endswith_sep_app _ r2 Hr) in E.
    rewrite (no_sep_endswith r2) in E; [discriminate|].
    now apply line_no_sep_no_newline. }
  subst f. exists pre. rewrite Ep. rewrite append_empty_r in P.
  now repeat split.
Qed.

(** C3 (amended): [infer_operation_destination] raises "Src must be a
    valid match to a file" unless [src] is a file reference; a [dst] that
    is a file reference is returned unchanged; and when [dst] is a
    directory reference other than the root whose normalised path ends
    with a separator and has no newline, the result keeps the filename of
    [src] under the bucket and prefix of [dst]: its path is the path of
    [dst] followed by that filename. *)
Theorem infer_operation_destination_spec
    (raw_src raw_dst : string) (src dst : Match.t) :
  Match.new raw_src = Return src ->
  Match.new raw_dst = Return dst ->
  (Match.is_file src = false ->
   Match.infer_operation_destination src dst = Raise (ValueError SrcNotAFile))
  /\ (Match.is_file src = true -> Match.is_file dst = true ->
      Match.infer_operation_destination src dst = Return dst)
  /\ (Match.is_file src = true -> Match.is_file dst = false ->
      Match.is_root dst = false ->
      Py.endswith_sep (Match.path dst) = true ->
      Py.contains Py.newline (Match.path dst) = false ->
      exists r,
        Match.infer_operation_destination src dst = Return r
        /\ Match.filename r = Match.filename src
        /\ Match.bucket r = Match.bucket dst
        /\ Match.prefix r = Match.prefix dst
        /\ Match.path r = Match.path dst ++ Match.filename src).
Proof.
  intros Hs Hd. unfold Match.infer_operation_destination.
  split; [now intros -> | split; [now intros -> -> |]].
  intros Fs Fd R E N. rewrite Fs, Fd. cbn [negb].
  destruct (file_reference _ _ Hs Fs) as (_ & Fne & Fsep & Fidem).
  destruct (directory_reference_path _ _ Hd R E N) as (pre & G & Ep & P & Hpre).
  destruct (path_groups_shape _ _ _ _ G (path_no_double dst))
    as (_ & _ & Bne & Bs & Bn & _).
  set (fn := Match.filename src) in *.
  set (b := Match.bucket dst) in *.
  assert (J : Py.join (Match.path dst) [fn] = Match.path dst ++ fn).
  { rewrite join_one. apply join2_plain;
      [now apply no_sep_startswith | now right]. }
  assert (ND : PathSpec.no_double_sep (Match.path dst ++ fn) = true)
    by (apply no_double_sep_app; [apply path_no_double | exact Fsep]).
  rewrite J. unfold Match.new. rewrite _get_match_spec.
  unfold Match.normalize. rewrite (collapse_fixed _ ND).
  assert (Q : Match.path dst ++ fn
              = String "/" (b ++ String "/" (Match.prefix dst ++ fn))).
  { rewrite P. simpl. now rewrite !append_assoc_s. }
  rewrite Q in *.
  destruct (String "/" _ =? ROOT) eqn:Eroot.
  { apply String.eqb_eq in Eroot. injection Eroot.
    destruct b; [congruence | discriminate]. }
  assert (G' : PathSpec.path_groups
                 (String "/" (b ++ String "/" (Match.prefix dst ++ fn)))
               = Some (b, pre, Some fn)).
  { unfold PathSpec.path_groups. change (Py.is_sep "/") with true. cbv iota.
    rewrite (split_bucket_here b (String "/" (Match.prefix dst ++ fn))
               Bs Bn eq_refl).
    simpl in ND. apply andb_prop in ND as [_ ND].
    apply no_double_sep_app_r in ND.
    rewrite (drop_seps_no_double "/" _ eq_refl ND). rewrite Ep.
    destruct Hpre as [-> | (v & -> & Hv & Nv)]; simpl.
    - assert (L : PathSpec.split_prefix fn = None)
        by now apply split_prefix_none, no_sep_line_no_sep.
      now rewrite L, Fidem.
    - rewrite (split_prefix_here v fn Nv Hv (no_sep_line_no_sep _ Fsep)).
      now rewrite Fidem. }
  rewrite G'. eexists. split; [reflexivity|].
  unfold Match.filename, Match.bucket, Match.prefix, Match.path,
    Match.normalize at 1. cbn [Match._match Match._path Match.ad_bucket
    Match.ad_prefix Match.ad_filename PathSpec.or_empty].
  repeat split; [symmetry; exact Ep | exact (collapse_fixed _ ND)].
Qed.

Lemma infer_operation_destination_spec_witness :
  exists r,
    Match.infer_operation_destination
      (Match.mk "/foo/bar1/baz" (Match.mkAttrDict "foo" "bar1/" "baz"))
      (Match.mk "/foo/bar2/" (Match.mkAttrDict "foo" "bar2/" ""))
    = Return r
    /\ Match.filename r = "baz"
    /\ Match.bucket r = "foo"
    /\ Match.prefix r = "bar2/"
    /\ Match.path r = "/foo/bar2/" ++ "baz".
Proof.
  apply (proj2 (proj2 (infer_operation_destination_spec
                         "/foo/bar1/baz" "/foo/bar2/" _ _ eq_refl eq_refl)));
    reflexivity.
Defined.

(** C3 as stated fails when [dst] is the root: there is no reference for
    a file directly under the root, and the inference raises "not a valid
    path" instead of returning one. *)
Lemma infer_operation_destination_into_root :
  Match.new "/foo/bar1/baz"
    = Return (Match.mk "/foo/bar1/baz" (Match.mkAttrDict "foo" "bar1/" "baz"))
  /\ Match.new "/" = Return (Match.mk "/" (Match.mkAttrDict "" "" ""))
  /\ Match.is_file (Match.mk "/" (Match.mkAttrDict "" "" "")) = false
  /\ Match.infer_operation_destination
       (Match.mk "/foo/bar1/baz" (Match.mkAttrDict "foo" "bar1/" "baz"))
       (Match.mk "/" (Match.mkAttrDict "" "" ""))
     = Raise (ValueError NotAValidPath).
Proof. repeat split; reflexivity. Qed.

(** The other two conditions of the amended statement are needed as well:
    a directory reference whose path does not end with a separator gets
    its last component moved into the prefix, and one with a newline in
    its path loses the filename. *)
Example infer_operation_destination_other_directories :
  (exists r,
      Match.new "/foo/x" = Return (Match.mk "/foo/x" (Match.mkAttrDict "foo" "" ""))
      /\ Match.infer_operation_destination
           (Match.mk "/foo/bar1/baz" (Match.mkAttrDict "foo" "bar1/" "baz"))
           (Match.mk "/foo/x" (Match.mkAttrDict "foo" "" ""))
         = Return r
      /\ Match.prefix r = "x/")
  /\ (exists r,
         Match.new ("/foo/" ++ Py.nl ++ "/")
         = Return (Match.mk ("/foo/" ++ Py.nl ++ "/") (Match.mkAttrDict "foo" "" ""))
         /\ Match.infer_operation_destination
              (Match.mk "/foo/bar1/baz" (Match.mkAttrDict "foo" "bar1/" "baz"))
              (Match.mk ("/foo/" ++ Py.nl ++ "/") (Match.mkAttrDict "foo" "" ""))
            = Return r
         /\ Match.filename r = "").
Proof. split; eexists; repeat split; reflexivity. Qed.

(** ** The operations on the server *)

Section EngineFacts.

Context {S : Type}.
Variable minio_obj : Minio.Client S.
Context {lowering : Py.StrLower}.
Variable local_utc_offset : Z.

Local Abbreviation listing m w :=
  (Py.sorted_reverse (get_last_modified local_utc_offset)
     (Minio.list_objects minio_obj (Match.bucket m) (Match.prefix m) (store w))).

Lemma _get_objects_at_run (m : Match.t) (w : world S) :
  _get_objects_at minio_obj local_utc_offset m w = (Return (listing m w), w).
Proof. reflexivity. Qed.

Lemma _validate_directory_run {A} (func : string -> M S A)
    (path : string) (m : Match.t) (w : world S) :
  Match.new path = Return m ->
  _validate_directory func path w
  = if Match.is_file m then (Raise (ValueError NotADirectoryPath), w)
    else func path w.
Proof.
  intros H. unfold _validate_directory, bind, lift. rewrite H.
  now destruct (Match.is_file m).
Qed.

(** [rmdir] past its decorator and its first lines. *)
Lemma rmdir_unfold (fuel : nat) (path : string) (recursive : bool)
    (m : Match.t) (w : world S) :
  Match.new path = Return m -> Match.is_file m = false ->
  rmdir minio_obj local_utc_offset (Datatypes.S fuel) path recursive w
  = if Match.is_root m then
      if recursive then truncate minio_obj local_utc_offset fuel w
      else (Raise DirectoryNotEmptyError, w)
    else
      (rmdir_walk minio_obj local_utc_offset fuel m recursive [path] ;;;
       if Match.is_bucket m then
         try_except (remove_bucket minio_obj (Match.bucket m))
           (fun e =>
              match e with
              | BucketNotEmpty => raise DirectoryNotEmptyError
              | _ => raise e
              end)
       else ret tt) w.
Proof.
  intros H F. cbn [rmdir]. rewrite (_validate_directory_run _ _ _ _ H), F.
  unfold bind at 1, lift. rewrite H.
  destruct (Match.is_root m); [|reflexivity]. now destruct recursive.
Qed.

(** The world after the calls a visit makes for the listing [objs]:
    one batch delete for the files, if there are any, then the marker
    delete, if there are no sub-directories and the directory visited is
    not a bare bucket. *)
Lemma rmdir_visit_recursive (m : Match.t) (current : string)
    (cm : Match.t) (w : world S) :
  Match.new current = Return cm ->
  let objs := listing cm w in
  let dirs := map object_path (filter Minio.is_dir objs) in
  let files :=
    map Minio.object_name (filter (fun o => negb (Minio.is_dir o)) objs) in
  let w1 :=
    if nonempty files
    then mkWorld (Minio.remove_objects minio_obj (Match.bucket m) files (store w))
                 (calls w ++ [Minio.RemoveObjects (Match.bucket m) files])
    else w in
  let w2 :=
    if negb (nonempty dirs) && negb (Match.is_bucket cm)
    then mkWorld (Minio.remove_object minio_obj (Match.bucket cm)
                    (Match.prefix cm) (store w1))
                 (calls w1 ++ [Minio.RemoveObject (Match.bucket cm)
                                                  (Match.prefix cm)])
    else w1 in
  rmdir_visit minio_obj local_utc_offset m true current w = (Return dirs, w2).
Proof.
  intros H objs dirs files w1 w2.
  unfold rmdir_visit, bind at 1, lift. rewrite H.
  unfold bind at 1. rewrite _get_objects_at_run. fold objs.
  subst w2 w1. fold dirs files.
  assert (E : nonempty objs = false -> nonempty files = false).
  { subst files. now destruct objs. }
  assert (E' : nonempty objs = false -> nonempty dirs = false).
  { subst dirs. now destruct objs. }
  destruct (nonempty objs); cbn [negb].
  - unfold when. destruct (nonempty files);
      cbv [bind ret remove_objects remove_object command];
      cbn [store calls];
      destruct (negb (nonempty dirs) && negb (Match.is_bucket cm));
      reflexivity.
  - rewrite (E eq_refl), (E' eq_refl).
    destruct dirs; [|discriminate (E' eq_refl)].
    cbv [bind ret when remove_object command nonempty negb andb].
    now destruct (Match.is_bucket cm).
Qed.

Lemma rmdir_visit_not_recursive (m : Match.t) (current : string)
    (cm : Match.t) (w : world S) :
  Match.new current = Return cm ->
  rmdir_visit minio_obj local_utc_offset m false current w
  = match listing cm w with
    | [] =>
        (Return [],
         if Match.is_bucket cm then w
         else mkWorld (Minio.remove_object minio_obj (Match.bucket cm)
                         (Match.prefix cm) (store w))
                      (calls w ++ [Minio.RemoveObject (Match.bucket cm)
                                                      (Match.prefix cm)]))
    | _ :: _ => (Raise DirectoryNotEmptyError, w)
    end.
Proof.
  intros H. unfold rmdir_visit, bind at 1, lift. rewrite H.
  unfold bind at 1. rewrite _get_objects_at_run.
  destruct (listing cm w) as [|o objs]; [|reflexivity].
  simpl. unfold bind, ret, when, remove_object, command. simpl.
  now destruct (Match.is_bucket cm).
Qed.


Lemma sorted_reverse_nil {A} (key : A -> Z) (l : list A) :
  Py.sorted_reverse key l = [] <-> l = [].
Proof.
  split; [|now intros ->].
  destruct l as [|x l]; [reflexivity|]. simpl.
  destruct (Py.sorted_reverse key l) as [|y l']; simpl; [discriminate|].
  now destruct (key x <? key y)%Z.
Qed.

Lemma listdir_root (w : world S) :
  listdir minio_obj local_utc_offset ROOT false w
  = (Return (map (fun b => Minio.name b ++ "/")
               (Py.sorted_reverse (get_creation_date local_utc_offset)
                  (Minio.list_buckets minio_obj (store w)))),
     w).
Proof. reflexivity. Qed.

Lemma rmdir_walk_nil (fuel : nat) (m : Match.t) (recursive : bool) :
  rmdir_walk minio_obj local_utc_offset fuel m recursive [] = ret tt.
Proof. now destruct fuel. Qed.

(** C9: on a path that fails the path grammar, [isdir] raises the
    "not a valid path" error of [Match], while [exists] answers [False]
    and raises nothing; neither touches the server. *)
Theorem isdir_raises_where_exists_is_false (path : string) (w : world S) :
  Match.new path = Raise (ValueError NotAValidPath) ->
  isdir minio_obj path w = (Raise (ValueError NotAValidPath), w)
  /\ exists_ minio_obj path w = (Return false, w).
Proof.
  intros H. unfold isdir, exists_, bind, lift. now rewrite H.
Qed.

(** ** The traversal of [rmdir] *)

Lemma calls_since_app (w : world S) (s' : S) (delta : list Minio.call) :
  calls_since w (mkWorld s' (calls w ++ delta)%list) = delta.
Proof.
  unfold calls_since. cbn [calls].
  rewrite skipn_app, skipn_all, Nat.sub_diag. reflexivity.
Qed.

Lemma calls_since_refl (w : world S) : calls_since w w = [].
Proof. unfold calls_since. apply skipn_all. Qed.

(** The calls of a visit, when [recursive] is set. *)
Lemma visit_calls_recursive (m : Match.t) (current : string) (cm : Match.t)
    (w : world S) :
  Match.new current = Return cm ->
  let objs := listing cm w in
  let dirs := map object_path (filter Minio.is_dir objs) in
  let files :=
    map Minio.object_name (filter (fun o => negb (Minio.is_dir o)) objs) in
  visit_calls minio_obj local_utc_offset m true (current, w)
  = ((if nonempty files
      then [Minio.RemoveObjects (Match.bucket m) files] else [])
     ++ (if negb (nonempty dirs) && negb (Match.is_bucket cm)
         then [Minio.RemoveObject (Match.bucket cm) (Match.prefix cm)]
         else []))%list.
Proof.
  intros H objs dirs files. unfold visit_calls. cbn [fst snd].
  rewrite (rmdir_visit_recursive _ _ _ _ H). cbn zeta. cbn [snd].
  fold objs. fold dirs. fold files.
  destruct (nonempty files);
    destruct (negb (nonempty dirs) && negb (Match.is_bucket cm));
    cbn [calls store app];
    rewrite <- ?app_assoc, ?calls_since_app, ?calls_since_refl; reflexivity.
Qed.

(** A visit only adds calls. *)
Lemma rmdir_visit_calls (m : Match.t) (recursive : bool) (current : string)
    (w : world S) :
  calls (snd (rmdir_visit minio_obj local_utc_offset m recursive current w))
  = (calls w
     ++ visit_calls minio_obj local_utc_offset m recursive (current, w))%list.
Proof.
  destruct (Match.new current) as [cm| |] eqn:H.
  - destruct recursive.
    + rewrite (visit_calls_recursive _ _ _ _ H).
      rewrite (rmdir_visit_recursive _ _ _ _ H). cbn zeta. cbn [snd].
      destruct (nonempty (map Minio.object_name _));
        destruct (negb _ && negb (Match.is_bucket cm));
        cbn [calls store app]; rewrite <- ?app_assoc, ?app_nil_r; reflexivity.
    + unfold visit_calls. cbn [fst snd].
      rewrite (rmdir_visit_not_recursive _ _ _ _ H).
      destruct (listing cm w); [destruct (Match.is_bucket cm)|]; cbn [snd calls];
        rewrite ?calls_since_app, ?calls_since_refl, ?app_nil_r; reflexivity.
  - unfold visit_calls, rmdir_visit, bind, lift. cbn [fst snd]. rewrite H.
    cbn [snd]. now rewrite calls_since_refl, app_nil_r.
  - unfold visit_calls, rmdir_visit, bind, lift. cbn [fst snd]. rewrite H.
    cbn [snd]. now rewrite calls_since_refl, app_nil_r.
Qed.

(** The calls of the whole loop are the calls of its visits, in order. *)
Lemma rmdir_walk_calls (fuel : nat) (m : Match.t) (recursive : bool)
    (dirs_to_delete : list string) (w : world S) :
  calls (snd (rmdir_walk minio_obj local_utc_offset fuel m recursive
                dirs_to_delete w))
  = (calls w
     ++ List.concat (map (visit_calls minio_obj local_utc_offset m recursive)
                  (rmdir_visits minio_obj local_utc_offset fuel m recursive
                     dirs_to_delete w)))%list.
Proof.
  revert dirs_to_delete w.
  induction fuel as [|fuel IH]; intros [|current rest] w; cbn [rmdir_walk rmdir_visits];
    try (cbn; now rewrite app_nil_r).
  unfold bind. cbn [map List.concat].
  pose proof (rmdir_visit_calls m recursive current w) as V.
  destruct (rmdir_visit minio_obj local_utc_offset m recursive current w)
    as [[dirs|e|] w'] eqn:E; cbn [snd] in V.
  - rewrite IH, V. now rewrite app_assoc.
  - cbn [snd map List.concat]. now rewrite app_nil_r.
  - cbn [snd map List.concat]. now rewrite app_nil_r.
Qed.


(** ** [rmdir] of a directory, outcome and calls *)

(** [rmdir] without [recursive] on a directory other than the root: the
    outcome and the world it leaves. *)
Lemma rmdir_not_recursive_run (fuel : nat) (path : string) (m : Match.t)
    (w : world S) :
  Match.new path = Return m ->
  Match.is_dir m = true ->
  Match.is_root m = false ->
  rmdir minio_obj local_utc_offset (Datatypes.S (Datatypes.S fuel)) path false w
  = match Minio.list_objects minio_obj (Match.bucket m) (Match.prefix m)
            (store w) with
    | [] =>
        if Match.is_bucket m then
          match Minio.remove_bucket minio_obj (Match.bucket m) (store w) with
          | Some s' =>
              (Return tt,
               mkWorld s' (calls w ++ [Minio.RemoveBucket (Match.bucket m)]))
          | None =>
              (Raise DirectoryNotEmptyError,
               mkWorld (store w)
                       (calls w ++ [Minio.RemoveBucket (Match.bucket m)]))
          end
        else
          (Return tt,
           mkWorld (Minio.remove_object minio_obj (Match.bucket m)
                      (Match.prefix m) (store w))
                   (calls w ++ [Minio.RemoveObject (Match.bucket m)
                                                   (Match.prefix m)]))
    | _ :: _ => (Raise DirectoryNotEmptyError, w)
    end.
Proof.
  intros H D R.
  assert (F : Match.is_file m = false) by (unfold Match.is_file; now rewrite D).
  rewrite (rmdir_unfold _ _ _ _ _ H F), R.
  unfold bind at 1. cbn [rmdir_walk]. unfold bind at 1.
  rewrite (rmdir_visit_not_recursive _ _ _ _ H).
  destruct (Minio.list_objects minio_obj (Match.bucket m) (Match.prefix m)
              (store w)) as [|o l] eqn:L.
  - cbn [Py.sorted_reverse fold_right app]. rewrite rmdir_walk_nil.
    destruct (Match.is_bucket m); [|reflexivity].
    unfold ret, try_except, remove_bucket.
    now destruct (Minio.remove_bucket minio_obj (Match.bucket m) (store w)).
  - destruct (Py.sorted_reverse _ (o :: l)) as [|o' l'] eqn:E; [|reflexivity].
    apply sorted_reverse_nil in E. discriminate.
Qed.


(** The calls of [rmdir] with [recursive] on a directory other than the
    root, however it ends: those of the visits, then [remove_bucket] if
    the loop returned and the reference is a bare bucket. *)
Lemma rmdir_recursive_calls (fuel : nat) (path : string) (m : Match.t)
    (w : world S) :
  Match.new path = Return m ->
  Match.is_dir m = true ->
  Match.is_root m = false ->
  calls (snd (rmdir minio_obj local_utc_offset (Datatypes.S fuel) path true w))
  = (calls w
     ++ List.concat (map (visit_calls minio_obj local_utc_offset m true)
                  (rmdir_visits minio_obj local_utc_offset fuel m true
                     [path] w))
     ++ match fst (rmdir_walk minio_obj local_utc_offset fuel m true
                     [path] w) with
        | Return _ =>
            if Match.is_bucket m then [Minio.RemoveBucket (Match.bucket m)]
            else []
        | _ => []
        end)%list.
Proof.
  intros H D R.
  assert (F : Match.is_file m = false) by (unfold Match.is_file; now rewrite D).
  rewrite (rmdir_unfold _ _ _ _ _ H F), R. unfold bind.
  pose proof (rmdir_walk_calls fuel m true [path] w) as W.
  destruct (rmdir_walk minio_obj local_utc_offset fuel m true [path] w)
    as [[[]|e|] w1]; cbn [fst snd] in *;
    try (now rewrite W, app_nil_r).
  destruct (Match.is_bucket m);
    [|unfold ret; cbn [snd]; now rewrite W, app_nil_r].
  unfold try_except, remove_bucket.
  destruct (Minio.remove_bucket minio_obj (Match.bucket m) (store w1));
    cbn [snd calls]; now rewrite W, <- app_assoc.
Qed.

(** The calls of each visit of a recursive traversal: one batch delete
    of the files listed, if any, then the delete of the marker, if no
    sub-directory is listed and the directory is not a bare bucket. *)
Lemma rmdir_visits_calls (fuel : nat) (m : Match.t)
    (dirs_to_delete : list string) (w : world S) :
  Forall
    (fun visit =>
       forall cm, Match.new (fst visit) = Return cm ->
         let objs := listing cm (snd visit) in
         let dirs := map object_path (filter Minio.is_dir objs) in
         let files :=
           map Minio.object_name
               (filter (fun o => negb (Minio.is_dir o)) objs) in
         visit_calls minio_obj local_utc_offset m true visit
         = ((if nonempty files
             then [Minio.RemoveObjects (Match.bucket m) files] else [])
            ++ (if negb (nonempty dirs) && negb (Match.is_bucket cm)
                then [Minio.RemoveObject (Match.bucket cm) (Match.prefix cm)]
                else []))%list)
    (rmdir_visits minio_obj local_utc_offset fuel m true dirs_to_delete w).
Proof.
  apply Forall_forall. intros [current wv] _ cm Hc. cbn [fst snd] in *.
  apply (visit_calls_recursive _ _ _ _ Hc).
Qed.


(** ** [exists], [_get_destination] and [mv] *)

(** [get] only reads the server, and what it raises is a [ValueError]. *)
Lemma get_pure (path : string) (w : world S) :
  exists r,
    get minio_obj path w = (r, w)
    /\ (forall e, r = Raise e -> exists v, e = ValueError v)
    /\ r <> OutOfFuel.
Proof.
  unfold get, bind at 1, lift.
  destruct (Match.new path) as [m|e|] eqn:H.
  - destruct (Match.is_bucket m).
    + eexists. split; [reflexivity|]. split; [|discriminate].
      intros e [= <-]. now eexists.
    + unfold bind at 1, try_except.
      destruct (Match.is_file m).
      * unfold bind at 1, get_object.
        destruct (Minio.get_object minio_obj _ _ (store w)) as [d|].
        -- unfold bind at 1, stat_object.
           destruct (Minio.stat_object minio_obj _ _ (store w)) as [o|].
           ++ eexists. split; [reflexivity|]. split; discriminate.
           ++ eexists. split; [reflexivity|]. split; [|discriminate].
              intros e [= <-]. now eexists.
        -- eexists. split; [reflexivity|]. split; [|discriminate].
           intros e [= <-]. now eexists.
      * unfold bind at 1, list_objects, query. unfold bind at 1, next_matching.
        destruct (filter _ _) as [|o objs].
        -- eexists. split; [reflexivity|]. split; [|discriminate].
           intros e [= <-]. now eexists.
        -- eexists. split; [reflexivity|]. split; discriminate.
  - apply new_raises in H. subst e.
    eexists. split; [reflexivity|]. split; [|discriminate].
    intros e [= <-]. now eexists.
  - now apply new_never_out_of_fuel in H.
Qed.

(** [exists] only reads the server and always answers. *)
Lemma exists_run (path : string) (w : world S) :
  exists_ minio_obj path w = (Return (exists_value minio_obj path w), w).
Proof.
  unfold exists_value.
  assert (E : exists b, exists_ minio_obj path w = (Return b, w)).
  { unfold exists_.
    destruct (Match.new path) as [m|e|] eqn:H.
    - destruct (Match.is_root m); [now eexists|].
      unfold bind at 1, bucket_exists, query.
      destruct (negb _); [now eexists|].
      destruct (Match.is_bucket m); [now eexists|].
      unfold try_except, bind.
      destruct (get_pure path w) as (r & -> & Hr & Hf).
      destruct r as [o|e|]; [now eexists | | congruence].
      destruct (Hr e eq_refl) as [v ->]. now eexists.
    - apply new_raises in H. subst e. now eexists.
    - now apply new_never_out_of_fuel in H. }
  destruct E as [b ->]. reflexivity.
Qed.

(** [_get_destination] only reads the server. *)
Lemma _get_destination_pure (from_path to_path : string) (w : world S) :
  snd (_get_destination minio_obj from_path to_path w) = w.
Proof.
  unfold _get_destination, bind at 1, lift.
  destruct (Match.new from_path) as [fm| |]; [|reflexivity..].
  unfold bind at 1.
  destruct (Match.new to_path) as [tm| |]; [|reflexivity..].
  destruct (Match.is_file fm); [reflexivity|].
  destruct (Match.is_dir tm); [|reflexivity].
  unfold bind. rewrite exists_run.
  now destruct (exists_value _ _ _).
Qed.

(** [rm] of a file reference: one [remove_object]. *)
Lemma rm_file (fuel : nat) (path : string) (recursive : bool) (m : Match.t)
    (w : world S) :
  Match.new path = Return m -> Match.is_file m = true ->
  rm minio_obj local_utc_offset fuel path recursive w
  = (Return tt,
     mkWorld (Minio.remove_object minio_obj (Match.bucket m)
                (Match.relative_path m) (store w))
             (calls w ++ [Minio.RemoveObject (Match.bucket m)
                                             (Match.relative_path m)])).
Proof.
  intros H F. unfold rm, isdir, bind, lift. rewrite H, exists_run.
  unfold Match.is_file in F. apply negb_true_iff in F. rewrite F.
  unfold ret. rewrite andb_false_r. reflexivity.
Qed.

(** [rm] of the reference of a directory that exists: [rmdir]. *)
Lemma rm_directory (fuel : nat) (path : string) (recursive : bool)
    (m : Match.t) (w : world S) :
  Match.new path = Return m -> Match.is_dir m = true ->
  exists_value minio_obj path w = true ->
  rm minio_obj local_utc_offset fuel path recursive w
  = rmdir minio_obj local_utc_offset fuel path recursive w.
Proof.
  intros H D E. unfold rm, isdir, bind at 1, bind at 1, lift. rewrite H.
  unfold bind at 1. rewrite exists_run, E, D. reflexivity.
Qed.

(** C2 (amended): [mv] first resolves the destination; once [cp] has
    run, whether it returned or raised, [rm(from_path, recursive)] is run
    if and only if [exists] holds of both the source and the path of the
    resolved destination in the world [cp] left, and otherwise nothing is
    called after the copy.  What becomes of the source is then what [rm]
    does: for a file source, the one [remove_object] of its key; for a
    directory source without [recursive], [DirectoryNotEmptyError] and no
    call when the source lists a child, the delete of its marker (of the
    bucket, for a bare bucket) when it lists none; for a directory source
    with [recursive], the calls of the traversal of [rmdir], visit by
    visit, and [remove_bucket] last for a bare bucket. *)
Theorem mv_runs_rm_iff_both_exist (fuel : nat)
    (from_path to_path : string) (recursive : bool) (to_match : Match.t)
    (r : outcome unit) (w w1 : world S) :
  _get_destination minio_obj from_path to_path w = (Return to_match, w) ->
  cp minio_obj local_utc_offset fuel from_path to_path recursive w = (r, w1) ->
  r <> OutOfFuel ->
  let both :=
    exists_value minio_obj from_path w1
    && exists_value minio_obj (Match.path to_match) w1 in
  let moved :=
    mv minio_obj local_utc_offset fuel from_path to_path recursive w in
  moved
  = (if both then
       let (r2, w2) :=
         rm minio_obj local_utc_offset fuel from_path recursive w1 in
       (match r2 with Return _ => r | _ => r2 end, w2)
     else (r, w1))
  /\ (exists_value minio_obj (Match.path to_match) w1 = false ->
      moved = (r, w1))
  /\ (forall fm, Match.new from_path = Return fm -> Match.is_file fm = true ->
      moved
      = if both then
          (r,
           mkWorld (Minio.remove_object minio_obj (Match.bucket fm)
                      (Match.relative_path fm) (store w1))
                   (calls w1 ++ [Minio.RemoveObject (Match.bucket fm)
                                    (Match.relative_path fm)]))
        else (r, w1))
  /\ (forall fm f,
        Match.new from_path = Return fm -> Match.is_dir fm = true ->
        Match.is_root fm = false -> both = true ->
        recursive = false -> fuel = Datatypes.S (Datatypes.S f) ->
        moved
        = match Minio.list_objects minio_obj (Match.bucket fm)
                  (Match.prefix fm) (store w1) with
          | [] =>
              if Match.is_bucket fm then
                match Minio.remove_bucket minio_obj (Match.bucket fm)
                        (store w1) with
                | Some s' =>
                    (r, mkWorld s' (calls w1
                                    ++ [Minio.RemoveBucket (Match.bucket fm)]))
                | None =>
                    (Raise DirectoryNotEmptyError,
                     mkWorld (store w1)
                             (calls w1
                              ++ [Minio.RemoveBucket (Match.bucket fm)]))
                end
              else
                (r,
                 mkWorld (Minio.remove_object minio_obj (Match.bucket fm)
                            (Match.prefix fm) (store w1))
                         (calls w1 ++ [Minio.RemoveObject (Match.bucket fm)
                                          (Match.prefix fm)]))
          | _ :: _ => (Raise DirectoryNotEmptyError, w1)
          end)
  /\ (forall fm f,
        Match.new from_path = Return fm -> Match.is_dir fm = true ->
        Match.is_root fm = false -> both = true ->
        recursive = true -> fuel = Datatypes.S f ->
        Forall
          (fun visit =>
             forall cm, Match.new (fst visit) = Return cm ->
               let objs := listing cm (snd visit) in
               let dirs := map object_path (filter Minio.is_dir objs) in
               let files :=
                 map Minio.object_name
                     (filter (fun o => negb (Minio.is_dir o)) objs) in
               visit_calls minio_obj local_utc_offset fm true visit
               = ((if nonempty files
                   then [Minio.RemoveObjects (Match.bucket fm) files] else [])
                  ++ (if negb (nonempty dirs) && negb (Match.is_bucket cm)
                      then [Minio.RemoveObject (Match.bucket cm)
                                               (Match.prefix cm)]
                      else []))%list)
          (rmdir_visits minio_obj local_utc_offset f fm true [from_path] w1)
        /\ calls (snd moved)
           = (calls w1
              ++ List.concat
                   (map (visit_calls minio_obj local_utc_offset fm true)
                        (rmdir_visits minio_obj local_utc_offset f fm true
                           [from_path] w1))
              ++ match fst (rmdir_walk minio_obj local_utc_offset f fm true
                              [from_path] w1) with
                 | Return _ =>
                     if Match.is_bucket fm
                     then [Minio.RemoveBucket (Match.bucket fm)] else []
                 | _ => []
                 end)%list).
Proof.
  intros D C F both moved.
  assert (E : moved
              = if both then
                  let (r2, w2) :=
                    rm minio_obj local_utc_offset fuel from_path recursive w1 in
                  (match r2 with Return _ => r | _ => r2 end, w2)
                else (r, w1)).
  { assert (K : (src_there <- exists_ minio_obj from_path ;;
                 if src_there then
                   dst_there <- exists_ minio_obj (Match.path to_match) ;;
                   when dst_there
                     (rm minio_obj local_utc_offset fuel from_path recursive)
                 else ret tt) w1
                = if both
                  then rm minio_obj local_utc_offset fuel from_path recursive w1
                  else (Return tt, w1)).
    { unfold bind at 1. rewrite exists_run. subst both.
      destruct (exists_value minio_obj from_path w1); cbn [andb];
        [|reflexivity].
      unfold bind. rewrite exists_run.
      now destruct (exists_value minio_obj (Match.path to_match) w1). }
    subst moved. unfold mv, bind at 1. rewrite D. unfold try_finally.
    rewrite C.
    destruct r as [[]|e|]; [| |congruence]; rewrite K; destruct both;
      try reflexivity;
      now destruct (rm _ _ _ _ _ w1) as [[[]|e'|] w2]. }
  split; [exact E|]. split; [|split; [|split]].
  - intros N. rewrite E. subst both. now rewrite N, andb_false_r.
  - intros fm Hf Ff. rewrite E. destruct both; [|reflexivity].
    now rewrite (rm_file _ _ _ _ _ Hf Ff).
  - intros fm f Hf Df Rf B -> ->. rewrite E, B.
    assert (Ex : exists_value minio_obj from_path w1 = true).
    { subst both. now apply andb_prop in B as [B _]. }
    rewrite (rm_directory _ _ _ _ _ Hf Df Ex).
    rewrite (rmdir_not_recursive_run _ _ _ _ Hf Df Rf).
    destruct (Minio.list_objects minio_obj (Match.bucket fm) (Match.prefix fm)
                (store w1)); [|reflexivity].
    destruct (Match.is_bucket fm); [|reflexivity].
    now destruct (Minio.remove_bucket minio_obj (Match.bucket fm) (store w1)).
  - intros fm f Hf Df Rf B -> ->. split; [apply rmdir_visits_calls|].
    rewrite E, B.
    assert (Ex : exists_value minio_obj from_path w1 = true).
    { subst both. now apply andb_prop in B as [B _]. }
    rewrite (rm_directory _ _ _ _ _ Hf Df Ex).
    rewrite <- (rmdir_recursive_calls _ _ _ _ Hf Df Rf).
    now destruct (rmdir minio_obj local_utc_offset (Datatypes.S f) from_path
                    true w1) as [[[]|e'|] w2].
Qed.

End EngineFacts.

(** ** The order of listings *)

Section SortedFacts.

Context {A : Type}.
Variable key : A -> Z.

Lemma insert_desc_perm (x : A) (l : list A) :
  Permutation (Py.insert_desc key x l) (x :: l).
Proof.
  induction l as [|y l IH]; simpl; [reflexivity|].
  destruct (key x <? key y)%Z; [|reflexivity].
  rewrite IH. apply perm_swap.
Qed.

(** [sorted] returns the elements it was given. *)
Lemma sorted_reverse_perm (l : list A) :
  Permutation (Py.sorted_reverse key l) l.
Proof.
  induction l as [|x l IH]; simpl; [reflexivity|].
  rewrite insert_desc_perm. now constructor.
Qed.

Lemma insert_desc_sorted (x : A) (l : list A) :
  StronglySorted (fun a b => (key b <= key a)%Z) l ->
  StronglySorted (fun a b => (key b <= key a)%Z) (Py.insert_desc key x l).
Proof.
  induction 1 as [|y l Hl IH Hy]; simpl.
  - repeat constructor.
  - destruct (key x <? key y)%Z eqn:E.
    + apply Z.ltb_lt in E. constructor; [exact IH|].
      rewrite (insert_desc_perm x l). constructor; [lia | exact Hy].
    + apply Z.ltb_ge in E. constructor; [now constructor|].
      constructor; [exact E|].
      apply Forall_forall. intros z Hz.
      rewrite Forall_forall in Hy. specialize (Hy z Hz). lia.
Qed.

(** With [reverse=True] the greatest key comes first. *)
Lemma sorted_reverse_sorted (l : list A) :
  StronglySorted (fun a b => (key b <= key a)%Z) (Py.sorted_reverse key l).
Proof.
  induction l as [|x l IH]; simpl; [constructor | now apply insert_desc_sorted].
Qed.

Lemma insert_desc_stable (v : Z) (x : A) (l : list A) :
  filter (fun a => (key a =? v)%Z) (Py.insert_desc key x l)
  = filter (fun a => (key a =? v)%Z) (x :: l).
Proof.
  induction l as [|y l IH]; simpl; [reflexivity|].
  destruct (key x <? key y)%Z eqn:E; [|reflexivity].
  apply Z.ltb_lt in E. simpl. rewrite IH. simpl.
  destruct (key x =? v)%Z eqn:Ex, (key y =? v)%Z eqn:Ey; try reflexivity.
  apply Z.eqb_eq in Ex, Ey. lia.
Qed.

(** The sort is stable: elements with the same key keep the order they
    had in the input. *)
Lemma sorted_reverse_stable (v : Z) (l : list A) :
  filter (fun a => (key a =? v)%Z) (Py.sorted_reverse key l)
  = filter (fun a => (key a =? v)%Z) l.
Proof.
  induction l as [|x l IH]; simpl; [reflexivity|].
  rewrite insert_desc_stable. simpl. now rewrite IH.
Qed.

End SortedFacts.

Lemma filter_all {A} (l : list A) : filter (fun _ => true) l = l.
Proof. induction l as [|x l IH]; simpl; [reflexivity | now rewrite IH]. Qed.

(** What [listdir] returns for a directory other than the root: the names
    of the objects listed, newest first, each with every occurrence of
    the prefix removed. *)
Lemma listdir_directory {S} (minio_obj : Minio.Client S)
    (local_utc_offset : Z) (path : string) (m : Match.t) (w : world S) :
  Match.new path = Return m ->
  Match.is_dir m = true ->
  Match.is_root m = false ->
  listdir minio_obj local_utc_offset path false w
  = (Return
       (map (fun obj => Py.replace (Match.prefix m) "" (Minio.object_name obj))
          (Py.sorted_reverse (get_last_modified local_utc_offset)
             (Minio.list_objects minio_obj (Match.bucket m) (Match.prefix m)
                (store w)))),
     w).
Proof.
  intros H D R. unfold listdir.
  rewrite (_validate_directory_run _ _ _ _ H).
  unfold Match.is_file. rewrite D. cbn [negb].
  unfold bind at 1, lift. rewrite H, R.
  unfold bind. rewrite _get_objects_at_run. unfold ret.
  cbn [negb orb]. now rewrite filter_all.
Qed.

(** ** [truncate] removes every bucket *)



Section TruncateFacts.

Context {S : Type}.
Variable minio_obj : Minio.Client S.
Variable local_utc_offset : Z.

Lemma for_each_calls {A} (body : A -> M S unit) (l : list A) :
  (forall x w, exists d, calls (snd (body x w)) = (calls w ++ d)%list) ->
  forall w, exists d, calls (snd (for_each l body w)) = (calls w ++ d)%list.
Proof.
  intros B. induction l as [|x l IH]; intros w; cbn [for_each].
  - exists []. now rewrite app_nil_r.
  - unfold bind. destruct (B x w) as [d Hd].
    destruct (body x w) as [[[]|e|] w1]; cbn [snd] in *;
      try (now exists d).
    destruct (IH w1) as [d' Hd']. exists (d ++ d')%list.
    now rewrite Hd', Hd, app_assoc.
Qed.

(** [rmdir] only adds calls. *)
Lemma rmdir_calls (fuel : nat) (path : string) (recursive : bool)
    (w : world S) :
  exists d,
    calls (snd (rmdir minio_obj local_utc_offset fuel path recursive w))
    = (calls w ++ d)%list.
Proof.
  revert path recursive w.
  induction fuel as [|fuel IH]; intros path recursive w.
  - exists []. cbn. now rewrite app_nil_r.
  - destruct (Match.new path) as [m|e|] eqn:H.
    + destruct (Match.is_file m) eqn:F.
      * cbn [rmdir]. rewrite (_validate_directory_run _ _ _ _ H), F.
        exists []. cbn. now rewrite app_nil_r.
      * rewrite (rmdir_unfold _ _ _ _ _ _ _ H F).
        destruct (Match.is_root m).
        -- destruct recursive; [|exists []; cbn; now rewrite app_nil_r].
           unfold truncate, truncate_with, bind. rewrite listdir_root.
           apply for_each_calls. intros x w0. apply IH.
        -- unfold bind.
           pose proof (rmdir_walk_calls minio_obj local_utc_offset fuel m
                         recursive [path] w) as W.
           destruct (rmdir_walk _ _ _ _ _ _ w) as [[[]|e|] w1];
             cbn [snd] in *; try (eexists; exact W).
           destruct (Match.is_bucket m); [|eexists; exact W].
           unfold try_except, remove_bucket.
           destruct (Minio.remove_bucket minio_obj _ (store w1));
             cbn [snd calls]; rewrite W, <- app_assoc; eexists; reflexivity.
    + cbn [rmdir]. unfold _validate_directory, bind, lift. rewrite H.
      exists []. cbn. now rewrite app_nil_r.
    + cbn [rmdir]. unfold _validate_directory, bind, lift. rewrite H.
      exists []. cbn. now rewrite app_nil_r.
Qed.



End TruncateFacts.

(** ** [rmdir] on directories and on the root *)

Section RmdirFacts.

Context {S : Type}.
Variable minio_obj : Minio.Client S.
Context {lowering : Py.StrLower}.
Variable local_utc_offset : Z.

Local Abbreviation listing m w :=
  (Py.sorted_reverse (get_last_modified local_utc_offset)
     (Minio.list_objects minio_obj (Match.bucket m) (Match.prefix m) (store w))).


End RmdirFacts.

(** ** What does hold of listings *)

(** X14: the objects of a directory come newest first by [get_last_modified],
    which is [last_modified] where the server gives one and the localized
    [fromtimestamp(0)] (the epoch itself when the local offset is zero)
    where it gives none; objects with equal keys stay in the order of the
    server. *)
Lemma _get_objects_at_order {S} (minio_obj : Minio.Client S)
    (local_utc_offset : Z) (m : Match.t) (w : world S) :
  let key := get_last_modified local_utc_offset in
  let native :=
    Minio.list_objects minio_obj (Match.bucket m) (Match.prefix m) (store w) in
  exists objs,
    _get_objects_at minio_obj local_utc_offset m w = (Return objs, w)
    /\ Permutation objs native
    /\ StronglySorted (fun a b => (key b <= key a)%Z) objs
    /\ (forall v, filter (fun o => (key o =? v)%Z) objs
                  = filter (fun o => (key o =? v)%Z) native)
    /\ (forall o, key o = match Minio.last_modified o with
                          | Some t => t
                          | None => local_utc_offset
                          end).
Proof.
  intros key native. eexists. split; [apply _get_objects_at_run|].
  repeat split.
  - apply sorted_reverse_perm.
  - apply sorted_reverse_sorted.
  - intros v. apply sorted_reverse_stable.
Qed.

Lemma endswith_sep_then_sep (s : string) : Py.endswith_sep (s ++ "/") = true.
Proof.
  induction s as [|a s IH]; [reflexivity|].
  cbn [append Py.endswith_sep].
  destruct (s ++ "/") eqn:E; [destruct s; simpl in E; discriminate E | exact IH].
Qed.

(** X15: the root lists the buckets newest first by [get_creation_date], each
    name followed by a separator. *)
Lemma listdir_root_order {S} (minio_obj : Minio.Client S)
    (local_utc_offset : Z) (w : world S) :
  let key := get_creation_date local_utc_offset in
  exists buckets,
    listdir minio_obj local_utc_offset ROOT false w
    = (Return (map (fun b => Minio.name b ++ "/") buckets), w)
    /\ Permutation buckets (Minio.list_buckets minio_obj (store w))
    /\ StronglySorted (fun a b => (key b <= key a)%Z) buckets
    /\ (forall v, filter (fun b => (key b =? v)%Z) buckets
                  = filter (fun b => (key b =? v)%Z)
                      (Minio.list_buckets minio_obj (store w)))
    /\ Forall (fun n => Py.endswith_sep n = true)
         (map (fun b => Minio.name b ++ "/") buckets).
Proof.
  intros key. eexists. split; [apply listdir_root|].
  repeat split.
  - apply sorted_reverse_perm.
  - apply sorted_reverse_sorted.
  - intros v. apply sorted_reverse_stable.
  - apply Forall_forall. intros n Hn.
    apply in_map_iff in Hn as (b & <- & _). apply endswith_sep_then_sep.
Qed.

(** ** Where [replace] does strip the prefix only *)

Lemma prefix_app (p s : string) : prefix p (p ++ s) = true.
Proof.
  induction p as [|a p IH]; simpl; [now destruct s|].
  destruct (ascii_dec a a); [exact IH | congruence].
Qed.

Lemma prefix_contains (c : ascii) (p s : string) :
  prefix p s = true -> Py.contains c p = true -> Py.contains c s = true.
Proof.
  revert s. induction p as [|a p IH]; intros s; [discriminate 2|].
  destruct s as [|b s]; simpl; [discriminate|].
  destruct (ascii_dec a b) as [<-|]; [|discriminate].
  intros Hp Hc. apply orb_true_iff in Hc as [Hc|Hc].
  - now rewrite Hc.
  - rewrite (IH s Hp Hc). apply orb_true_r.
Qed.

Lemma replace_from_skip (old new u s : string) :
  Py.replace_from old new (String.length u) (u ++ s)
  = Py.replace_from old new 0 s.
Proof.
  induction u as [|a u IH]; simpl; [reflexivity | exact IH].
Qed.

Lemma replace_from_absent (c : ascii) (old new s : string) :
  Py.contains c old = true -> Py.contains c s = false ->
  Py.replace_from old new 0 s = s.
Proof.
  intros Ho. induction s as [|a s IH]; [reflexivity|].
  intros Hs. cbn [Py.replace_from].
  destruct (prefix old (String a s)) eqn:E.
  - rewrite (prefix_contains c _ _ E Ho) in Hs. discriminate.
  - cbn [Py.contains] in Hs. apply orb_false_iff in Hs as [_ Hs].
    now rewrite (IH Hs).
Qed.

Lemma intersperse_empty (s : string) : Py.intersperse "" s = s.
Proof. induction s as [|a s IH]; simpl; [reflexivity | now rewrite IH]. Qed.

Lemma endswith_sep_contains (p : string) :
  Py.endswith_sep p = true -> Py.contains "/" p = true.
Proof.
  induction p as [|a p IH]; [discriminate|].
  cbn [Py.endswith_sep Py.contains].
  change (Ascii.eqb a "/") with (Py.is_sep a).
  destruct p as [|b p]; [intros ->; reflexivity|].
  intros H. rewrite (IH H). apply orb_true_r.
Qed.

(** A key made of the prefix and a name without separator, as the keys
    of the files of a directory are, loses exactly the prefix. *)
Lemma replace_strips_prefix_of_file (p name : string) :
  p = "" \/ Py.endswith_sep p = true ->
  Py.contains "/" name = false ->
  Py.replace p "" (p ++ name) = name.
Proof.
  intros [-> | Hp] Hn.
  - simpl. apply intersperse_empty.
  - destruct p as [|a p]; [discriminate|].
    unfold Py.replace. cbn [append Py.replace_from].
    change (String a (p ++ name)) with (String a p ++ name).
    rewrite prefix_app.
    replace (String.length (String a p) - 1) with (String.length p)
      by (cbn [String.length]; lia).
    cbn [append]. rewrite replace_from_skip.
    apply (replace_from_absent "/"); [now apply endswith_sep_contains | exact Hn].
Qed.

(** ** Concrete runs *)



Lemma mv_runs_rm_iff_both_exist_witness :
  mv MemoryStore.client 0 5 "/b/top.txt" "/c/" false
     (MemoryStore.start Runs.two_buckets)
  = (Return tt,
     mkWorld [MemoryStore.mkBucket "b" (Some 5%Z) [];
              MemoryStore.mkBucket "c" (Some 9%Z) [Runs.file "top.txt" 3]]
             [Minio.CopyObject "c" "top.txt" "b/top.txt";
              Minio.RemoveObject "b" "top.txt"]).
Proof.
  refine (proj1 (mv_runs_rm_iff_both_exist MemoryStore.client 0 5
                   "/b/top.txt" "/c/" false _ _ _ _ eq_refl eq_refl _)).
  discriminate.
Defined.

(** C2 as stated fails, both ways.  Moving the directory [/b/dir/] into
    [/c/] without [recursive]: the copy raises, the source and the
    resolved destination [/c/dir/] both exist, [rm] is run and raises
    [DirectoryNotEmptyError], and the source is still there.  Moving the
    empty directory [/b/a/] into [/c/] without [recursive]: the copy
    raises before any call and puts nothing at the destination, which
    existed before; the source is removed all the same. *)
Lemma mv_existence_does_not_decide_deletion :
  let w := MemoryStore.start two_sources in
  let kept := mv MemoryStore.client 0 5 "/b/dir/" "/c/" false w in
  let lost := mv MemoryStore.client 0 5 "/b/a/" "/c/" false w in
  (fst (_get_destination MemoryStore.client "/b/dir/" "/c/" w)
   = Return (Match.mk "/c/dir/" (Match.mkAttrDict "c" "dir/" ""))
   /\ cp MemoryStore.client 0 5 "/b/dir/" "/c/" false w
      = (Raise (ValueError CopyDirectoryNotRecursive), w)
   /\ exists_value MemoryStore.client "/b/dir/" w = true
   /\ exists_value MemoryStore.client "/c/dir/" w = true
   /\ kept = (Raise DirectoryNotEmptyError, w)
   /\ exists_value MemoryStore.client "/b/dir/" (snd kept) = true)
  /\ (fst (_get_destination MemoryStore.client "/b/a/" "/c/" w)
      = Return (Match.mk "/c/a/" (Match.mkAttrDict "c" "a/" ""))
      /\ cp MemoryStore.client 0 5 "/b/a/" "/c/" false w
         = (Raise (ValueError CopyDirectoryNotRecursive), w)
      /\ fst lost = Raise (ValueError CopyDirectoryNotRecursive)
      /\ calls (snd lost) = [Minio.RemoveObject "b" "a/"]
      /\ exists_value MemoryStore.client "/b/a/" (snd lost) = false
      /\ MemoryStore.objects_of "c" (store (snd lost))
         = MemoryStore.objects_of "c" (store w)).
Proof. vm_compute. repeat split. Qed.


(** The same call on the buckets of [two_buckets], where no directory
    holds a sub-directory: every object and both buckets are removed. *)
Lemma rmdir_root_recursive_two_buckets :
  rmdir MemoryStore.client 0 7 "/" true (MemoryStore.start Runs.two_buckets)
  = (Return tt,
     mkWorld []
       [Minio.RemoveBucket "c"; Minio.RemoveObjects "b" ["top.txt"];
        Minio.RemoveBucket "b"]).
Proof. reflexivity. Qed.


Lemma isdir_raises_where_exists_is_false_witness :
  isdir MemoryStore.client "name" (MemoryStore.start Runs.two_buckets)
  = (Raise (ValueError NotAValidPath), MemoryStore.start Runs.two_buckets)
  /\ exists_ MemoryStore.client "name" (MemoryStore.start Runs.two_buckets)
     = (Return false, MemoryStore.start Runs.two_buckets).
Proof.
  apply (isdir_raises_where_exists_is_false MemoryStore.client "name").
  reflexivity.
Defined.

(** C5 is not what the code does: [listdir] removes every occurrence of
    the prefix from the key, not only the one in front.  Whenever the
    server lists the sub-directory [ba/] of [/b/a/], under the key
    ["a/ba/"], [listdir] returns it as ["b"]; with the prefix stripped
    from the front it is ["ba/"]. *)
Theorem listdir_removes_prefix_inside_name {S} (minio_obj : Minio.Client S)
    (local_utc_offset : Z) (w : world S) (obj : Minio.Object) :
  Minio.list_objects minio_obj "b" "a/" (store w) = [obj] ->
  Minio.object_name obj = "a/ba/" ->
  listdir minio_obj local_utc_offset "/b/a/" false w = (Return ["b"], w)
  /\ PathSpec.strip_front "a/" (Minio.object_name obj) = "ba/".
Proof.
  intros L N.
  rewrite (listdir_directory minio_obj local_utc_offset "/b/a/" Runs.ref_a w
             eq_refl eq_refl eq_refl).
  change (Match.bucket Runs.ref_a) with "b".
  change (Match.prefix Runs.ref_a) with "a/".
  rewrite L. cbn [Py.sorted_reverse fold_right Py.insert_desc map].
  now rewrite N.
Qed.

Lemma listdir_removes_prefix_inside_name_witness :
  listdir MemoryStore.client 0 "/b/a/" false (MemoryStore.start Runs.repeated)
  = (Return ["b"], MemoryStore.start Runs.repeated)
  /\ PathSpec.strip_front "a/" "a/ba/" = "ba/".
Proof.
  apply (listdir_removes_prefix_inside_name MemoryStore.client 0
           (MemoryStore.start Runs.repeated)
           (Minio.mkObject "b" "a/ba/" true None 0 [])); reflexivity.
Defined.

(** C6 is not what the code does where the process's local time is not
    UTC: an object without [last_modified] sorts as the local wall-clock
    reading at the epoch labelled UTC, not as the epoch.  One hour east of
    Greenwich a sub-directory (listed without [last_modified]) comes
    before an object stamped 30 minutes after the epoch; treated as the
    epoch it would come after it, as it does when the offset is zero. *)
Theorem listdir_missing_last_modified_not_epoch {S}
    (minio_obj : Minio.Client S) (w : world S) (old sub : Minio.Object) :
  Minio.list_objects minio_obj "b" "" (store w) = [old; sub] ->
  Minio.object_name old = "old.txt" ->
  Minio.last_modified old = Some 1800%Z ->
  Minio.object_name sub = "sub/" ->
  Minio.last_modified sub = None ->
  listdir minio_obj 3600 "/b/" false w = (Return ["sub/"; "old.txt"], w)
  /\ listdir minio_obj 0 "/b/" false w = (Return ["old.txt"; "sub/"], w).
Proof.
  intros L No To Ns Ts.
  rewrite !(listdir_directory minio_obj _ "/b/"
              (Match.mk "/b/" (Match.mkAttrDict "b" "" "")) w
              eq_refl eq_refl eq_refl).
  change (Match.bucket _) with "b". change (Match.prefix _) with "".
  rewrite L. cbn [Py.sorted_reverse fold_right Py.insert_desc map].
  unfold get_last_modified, localized_fromtimestamp_0. rewrite To, Ts.
  cbn [Z.ltb Z.compare Pos.compare Pos.compare_cont map].
  now rewrite No, Ns.
Qed.

Lemma listdir_missing_last_modified_not_epoch_witness :
  listdir MemoryStore.client 3600 "/b/" false (MemoryStore.start Runs.early)
  = (Return ["sub/"; "old.txt"], MemoryStore.start Runs.early)
  /\ listdir MemoryStore.client 0 "/b/" false (MemoryStore.start Runs.early)
     = (Return ["old.txt"; "sub/"], MemoryStore.start Runs.early).
Proof.
  apply (listdir_missing_last_modified_not_epoch MemoryStore.client
           (MemoryStore.start Runs.early)
           (Minio.mkObject "b" "old.txt" false (Some 1800%Z) 4 [])
           (Minio.mkObject "b" "sub/" true None 0 [])); reflexivity.
Defined.

(** ** More on references *)

(** X1: [Match] reads its argument through the normalised path only: the
    normalised path of a path resolves to the same bucket, prefix and
    filename, or fails in the same way. *)
Theorem match_of_normalised_path (raw : string) :
  Match._get_match (Match.normalize raw) = Match._get_match raw
  /\ Match.normalize (Match.normalize raw) = Match.normalize raw.
Proof.
  split; [|apply normalize_idempotent].
  unfold Match._get_match. now rewrite normalize_idempotent.
Qed.

Lemma filename_tail_whole (s f r : string) :
  Py.contains "/" s = false -> Py.contains Py.newline s = false ->
  PathSpec.filename_tail s = Some (f, r) -> f = s /\ r = "".
Proof.
  revert f r. induction s as [|a s IH]; intros f r; [discriminate 3|].
  cbn [Py.contains PathSpec.filename_tail].
  change (Ascii.eqb a "/") with (Py.is_sep a).
  change (Ascii.eqb a Py.newline) with (Py.is_newline a).
  intros Hs Hn. apply orb_false_iff in Hs as [Sa Hs].
  apply orb_false_iff in Hn as [Na Hn]. rewrite Na, Sa.
  destruct (PathSpec.filename_tail s) as [[f' r']|] eqn:E.
  - intros [= <- <-]. destruct (IH f' r' Hs Hn eq_refl) as [-> ->]. now split.
  - intros [= <- <-]. destruct s as [|b s]; [now split|].
    exfalso. cbn [Py.contains PathSpec.filename_tail] in *.
    change (Ascii.eqb b "/") with (Py.is_sep b) in Hs.
    change (Ascii.eqb b Py.newline) with (Py.is_newline b) in Hn.
    apply orb_false_iff in Hs as [Sb _]. apply orb_false_iff in Hn as [Nb _].
    rewrite Nb, Sb in E. now destruct (PathSpec.filename_tail s) as [[? ?]|].
Qed.


(** [relative_path] of a reference is its prefix followed by its
    filename. *)
Lemma relative_path_concat (raw : string) (m : Match.t) :
  Match.new raw = Return m ->
  Match.relative_path m = Match.prefix m ++ Match.filename m.
Proof.
  intros H. destruct (Match.is_root m) eqn:R.
  - destruct (new_root _ _ H R) as (_ & P & F).
    unfold Match.relative_path. now rewrite P, F.
  - destruct (new_groups _ _ H R) as (pre & f & G & Ep & Ef).
    destruct (path_groups_shape _ _ _ _ G (path_no_double m))
      as (r2 & _ & _ & _ & _ & Hpre & L & ->).
    unfold Match.relative_path. rewrite join_one. apply join2_plain.
    + apply no_sep_startswith. rewrite Ef.
      destruct (PathSpec.split_filename r2) as [[v r]|] eqn:E; [|reflexivity].
      now destruct (split_filename_no_sep _ _ _ L E).
    + rewrite Ep. destruct Hpre as [-> | (v & -> & Hv & _)]; [now left | now right].
Qed.

(** X2: a path that ends with a separator and has no newline is a
    directory reference, and its normalised path is rebuilt from the
    fields: ["/" + bucket + "/" + relative_path]. *)
Theorem trailing_separator_is_directory (raw : string) (m : Match.t) :
  Match.new raw = Return m ->
  Match.is_root m = false ->
  Py.endswith_sep (Match.path m) = true ->
  Py.contains Py.newline (Match.path m) = false ->
  Match.is_dir m = true
  /\ Match.path m = "/" ++ Match.bucket m ++ "/" ++ Match.relative_path m.
Proof.
  intros H R E N.
  destruct (directory_reference_path _ _ H R E N) as (pre & G & Ep & P & _).
  destruct (new_groups _ _ H R) as (pre' & f' & G' & _ & Ef).
  rewrite G in G'. injection G' as <- <-.
  assert (F : Match.filename m = "") by exact Ef.
  split; [unfold Match.is_dir; now rewrite F|].
  rewrite (relative_path_concat _ _ H), F, append_empty_r. exact P.
Qed.

Lemma trailing_separator_is_directory_witness :
  Match.is_dir (Match.mk "/foo//bar/" (Match.mkAttrDict "foo" "bar/" "")) = true
  /\ Match.path (Match.mk "/foo//bar/" (Match.mkAttrDict "foo" "bar/" ""))
     = "/" ++ "foo" ++ "/" ++ "bar/".
Proof.
  apply (trailing_separator_is_directory "/foo//bar/" _ eq_refl);
    reflexivity.
Defined.

(** X3: the normalised path of a file reference without newline is
    rebuilt from the fields: ["/" + bucket + "/" + relative_path]; nothing
    of the path is lost. *)
Theorem file_reference_path (raw : string) (m : Match.t) :
  Match.new raw = Return m ->
  Match.is_file m = true ->
  Py.contains Py.newline (Match.path m) = false ->
  Match.path m = "/" ++ Match.bucket m ++ "/" ++ Match.relative_path m.
Proof.
  intros H F N.
  destruct (file_reference _ _ H F) as (R & Fne & _ & _).
  destruct (new_groups _ _ H R) as (pre & f & G & Ep & Ef).
  destruct (path_groups_shape _ _ _ _ G (path_no_double m))
    as (r2 & P & _ & _ & _ & _ & L & ->).
  rewrite (relative_path_concat _ _ H), Ep.
  assert (N2 : Py.contains Py.newline r2 = false).
  { rewrite P in N.
    repeat (rewrite ?contains_app in N; cbn [Py.contains] in N;
            apply orb_false_iff in N as [_ N]).
    exact N. }
  pose proof (line_no_sep_no_newline _ L N2) as S2.
  destruct r2 as [|a r2]; [now rewrite Ef in Fne|].
  cbn [PathSpec.split_filename] in Ef.
  cbn [Py.contains] in N2, S2.
  change (Ascii.eqb a Py.newline) with (Py.is_newline a) in N2.
  apply orb_false_iff in N2 as [Na N2]. apply orb_false_iff in S2 as [_ S2].
  rewrite Na in Ef.
  destruct (PathSpec.filename_tail r2) as [[f r]|] eqn:E;
    [|now rewrite Ef in Fne].
  destruct (filename_tail_whole _ _ _ S2 N2 E) as [-> ->].
  cbn [option_map fst PathSpec.or_empty] in Ef. rewrite Ef. exact P.
Qed.

Lemma file_reference_path_witness :
  Match.path (Match.mk "/foo//bar1/baz" (Match.mkAttrDict "foo" "bar1/" "baz"))
  = "/" ++ "foo" ++ "/" ++ "bar1/baz".
Proof.
  apply (file_reference_path "/foo//bar1/baz" _ eq_refl); reflexivity.
Defined.



(** X5: [is_bucket] holds of a reference exactly when its prefix and
    filename are both empty; it holds of the root, and a reference it
    holds of is a directory reference. *)
Theorem is_bucket_iff_no_key (raw : string) (m : Match.t) :
  Match.new raw = Return m ->
  (Match.is_bucket m = true
   <-> Match.prefix m = "" /\ Match.filename m = "")
  /\ (Match.is_root m = true -> Match.is_bucket m = true)
  /\ (Match.is_bucket m = true -> Match.is_dir m = true).
Proof.
  intros H. pose proof (relative_path_concat _ _ H) as C.
  assert (I : Match.is_bucket m = true
              <-> Match.prefix m = "" /\ Match.filename m = "").
  { unfold Match.is_bucket. rewrite C. split.
    - intros E. apply String.eqb_eq in E.
      destruct (Match.prefix m); [now split | discriminate].
    - intros [-> ->]. reflexivity. }
  split; [exact I|]. split.
  - intros R. apply I. destruct (new_root _ _ H R) as (_ & P & F). now split.
  - intros B. apply I in B as [_ F]. unfold Match.is_dir. now rewrite F.
Qed.

Lemma is_bucket_iff_no_key_witness :
  Match.is_bucket (Match.mk "/foo/" (Match.mkAttrDict "foo" "" "")) = true
  <-> "" = "" /\ "" = "".
Proof.
  apply (proj1 (is_bucket_iff_no_key "/foo/"
                  (Match.mk "/foo/" (Match.mkAttrDict "foo" "" "")) eq_refl)).
Defined.

(** ** Reading and writing computations *)

Section MonadFacts.

Context {S : Type}.

Lemma read_only_ret {A} (a : A) : read_only (@ret S A a).
Proof. now intros w. Qed.

Lemma read_only_raise {A} (e : exn) : read_only (@raise S A e).
Proof. now intros w. Qed.

Lemma read_only_lift {A} (o : outcome A) : read_only (@lift S A o).
Proof. now intros w. Qed.

Lemma read_only_bind {A B} (c : M S A) (k : A -> M S B) :
  read_only c -> (forall a, read_only (k a)) -> read_only (bind c k).
Proof.
  intros Hc Hk w. unfold bind. specialize (Hc w).
  destruct (c w) as [[a|e|] w']; cbn [snd] in *; subst w'; [apply Hk | easy..].
Qed.

Lemma read_only_try_except {A} (c : M S A) (h : exn -> M S A) :
  read_only c -> (forall e, read_only (h e)) -> read_only (try_except c h).
Proof.
  intros Hc Hh w. unfold try_except. specialize (Hc w).
  destruct (c w) as [[a|e|] w']; cbn [snd] in *; subst w'; [easy | apply Hh | easy].
Qed.

Lemma read_only_emits {A} (kind : Minio.call -> bool) (c : M S A) :
  read_only c -> emits kind c.
Proof. intros H w. exists []. now rewrite H, app_nil_r. Qed.

Lemma emits_bind {A B} (kind : Minio.call -> bool) (c : M S A)
    (k : A -> M S B) :
  emits kind c -> (forall a, emits kind (k a)) -> emits kind (bind c k).
Proof.
  intros Hc Hk w. unfold bind. destruct (Hc w) as (d & Hd & Fd).
  destruct (c w) as [[a|e|] w']; cbn [snd] in *; try (now exists d).
  destruct (Hk a w') as (d' & Hd' & Fd'). exists (d ++ d')%list.
  now rewrite Hd', Hd, app_assoc, forallb_app, Fd, Fd'.
Qed.

Lemma emits_try_except {A} (kind : Minio.call -> bool) (c : M S A)
    (h : exn -> M S A) :
  emits kind c -> (forall e, emits kind (h e)) -> emits kind (try_except c h).
Proof.
  intros Hc Hh w. unfold try_except. destruct (Hc w) as (d & Hd & Fd).
  destruct (c w) as [[a|e|] w']; cbn [snd] in *; try (now exists d).
  destruct (Hh e w') as (d' & Hd' & Fd'). exists (d ++ d')%list.
  now rewrite Hd', Hd, app_assoc, forallb_app, Fd, Fd'.
Qed.

Lemma emits_for_each {A} (kind : Minio.call -> bool) (l : list A)
    (body : A -> M S unit) :
  (forall x, emits kind (body x)) -> emits kind (for_each l body).
Proof.
  intros Hb. induction l as [|x l IH]; cbn [for_each].
  - apply read_only_emits, read_only_ret.
  - apply emits_bind; [apply Hb | intros _; exact IH].
Qed.

Lemma emits_when (kind : Minio.call -> bool) (b : bool) (c : M S unit) :
  emits kind c -> emits kind (when b c).
Proof.
  intros H. destruct b; [exact H | apply read_only_emits, read_only_ret].
Qed.

End MonadFacts.

Section MoreEngineFacts.

Context {S : Type}.
Variable minio_obj : Minio.Client S.
Context {lowering : Py.StrLower}.
Variable local_utc_offset : Z.

Lemma emits_command (kind : Minio.call -> bool) (c : Minio.call) (f : S -> S) :
  kind c = true -> emits kind (command c f).
Proof.
  intros K w. exists [c]. cbn. now rewrite K.
Qed.

Lemma read_only_exists (path : string) : read_only (exists_ minio_obj path).
Proof. intros w. now rewrite exists_run. Qed.

Lemma read_only_get (path : string) : read_only (get minio_obj path).
Proof. intros w. now destruct (get_pure minio_obj path w) as (r & -> & _). Qed.

Lemma read_only_validate {A} (func : string -> M S A) (path : string) :
  (forall p, read_only (func p)) -> read_only (_validate_directory func path).
Proof.
  intros H. unfold _validate_directory.
  apply read_only_bind; [apply read_only_lift|].
  intros m. destruct (Match.is_file m); [apply read_only_raise | apply H].
Qed.

Lemma read_only_get_objects_at (m : Match.t) :
  read_only (_get_objects_at minio_obj local_utc_offset m).
Proof. now intros w. Qed.

Lemma read_only_listdir (path : string) (only_files : bool) :
  read_only (listdir minio_obj local_utc_offset path only_files).
Proof.
  unfold listdir. apply read_only_validate. intros p.
  apply read_only_bind; [apply read_only_lift|]. intros m.
  destruct (Match.is_root m); [destruct only_files|]; now intros w.
Qed.

(** X6: the operations that only look at the server do not change it and
    issue no call: [listdir], [exists], [isdir], [get], [get_last_object]
    and [_get_destination] leave the world as they found it, whatever
    they return or raise. *)
Theorem queries_leave_the_world (path to_path : string) (only_files : bool) :
  read_only (listdir minio_obj local_utc_offset path only_files)
  /\ read_only (exists_ minio_obj path)
  /\ read_only (isdir minio_obj path)
  /\ read_only (get minio_obj path)
  /\ read_only (get_last_object minio_obj local_utc_offset path)
  /\ read_only (_get_destination minio_obj path to_path).
Proof.
  repeat split.
  - apply read_only_listdir.
  - apply read_only_exists.
  - unfold isdir. apply read_only_bind; [apply read_only_lift|]. intros m.
    apply read_only_bind; [apply read_only_exists|]. intros e.
    apply read_only_ret.
  - apply read_only_get.
  - unfold get_last_object. apply read_only_validate. intros p.
    apply read_only_bind; [apply read_only_lift|]. intros m.
    apply read_only_bind; [apply read_only_listdir|]. intros [|n names].
    + apply read_only_ret.
    + apply read_only_bind; [apply read_only_get|]. intros o.
      apply read_only_ret.
  - intros w. apply _get_destination_pure.
Qed.

(** X7: an operation that takes a directory refuses the path of a file:
    [listdir], [mkdirs], [rmdir], [copy_recursively] and
    [get_last_object] raise "is not a valid directory path" on a file
    reference, before anything is asked of the server. *)
Theorem directory_operations_refuse_files (fuel : nat)
    (path to_path : string) (flag : bool) (m : Match.t) (w : world S) :
  Match.new path = Return m ->
  Match.is_file m = true ->
  listdir minio_obj local_utc_offset path flag w
  = (Raise (ValueError NotADirectoryPath), w)
  /\ mkdirs minio_obj path w = (Raise (ValueError NotADirectoryPath), w)
  /\ rmdir minio_obj local_utc_offset (Datatypes.S fuel) path flag w
     = (Raise (ValueError NotADirectoryPath), w)
  /\ copy_recursively minio_obj local_utc_offset fuel path to_path w
     = (Raise (ValueError NotADirectoryPath), w)
  /\ get_last_object minio_obj local_utc_offset path w
     = (Raise (ValueError NotADirectoryPath), w).
Proof.
  intros H F.
  assert (V : forall A (func : string -> M S A),
             _validate_directory func path w
             = (Raise (ValueError NotADirectoryPath), w)).
  { intros A func. now rewrite (_validate_directory_run _ _ _ _ H), F. }
  repeat split; apply V.
Qed.

(** X8: [exists] never raises and changes nothing.  It answers [False]
    for a path the grammar rejects, [True] for the root, and otherwise
    holds exactly when the bucket exists and the reference is a bare
    bucket or [get] finds the object. *)
Theorem exists_answer (path : string) (w : world S) :
  exists_ minio_obj path w
  = (Return
       match Match.new path with
       | Return m =>
           Match.is_root m
           || (Minio.bucket_exists minio_obj (Match.bucket m) (store w)
               && (Match.is_bucket m
                   || match fst (get minio_obj path w) with
                      | Return _ => true
                      | _ => false
                      end))
       | _ => false
       end,
     w).
Proof.
  unfold exists_. destruct (Match.new path) as [m|e|] eqn:H.
  - destruct (Match.is_root m); [reflexivity|]. cbn [orb].
    unfold bind at 1, bucket_exists, query.
    destruct (Minio.bucket_exists minio_obj (Match.bucket m) (store w));
      [|reflexivity].
    cbn [negb andb]. destruct (Match.is_bucket m); [reflexivity|].
    cbn [orb]. unfold try_except, bind.
    destruct (get_pure minio_obj path w) as (r & -> & Hr & Hf). cbn [fst].
    destruct r as [o|e|]; [reflexivity | | congruence].
    destruct (Hr e eq_refl) as [v ->]. reflexivity.
  - apply new_raises in H. now subst e.
  - now apply new_never_out_of_fuel in H.
Qed.

End MoreEngineFacts.

Section ObjectFacts.

Context {S : Type}.
Variable minio_obj : Minio.Client S.
Context {lowering : Py.StrLower}.
Variable local_utc_offset : Z.

Lemma file_is_not_bucket (raw : string) (m : Match.t) :
  Match.new raw = Return m -> Match.is_file m = true ->
  Match.is_bucket m = false.
Proof.
  intros H F. unfold Match.is_bucket. rewrite (relative_path_concat _ _ H).
  apply String.eqb_neq. intros E.
  unfold Match.is_file, Match.is_dir in F. apply negb_true_iff in F.
  apply String.eqb_neq in F. apply F.
  destruct (Match.prefix m); [exact E | discriminate].
Qed.

(** X9: [mkdirs] refuses the root with "cannot create / directory" and
    calls nothing; on any other directory reference it returns, having
    created the bucket only if the server did not have it and written
    one empty object under the prefix unless the reference is a bare
    bucket.  Once the server has the bucket, [mkdirs] creates no bucket
    again. *)
Theorem mkdirs_calls (path : string) (m : Match.t) (w : world S) :
  Match.new path = Return m ->
  Match.is_dir m = true ->
  (Match.is_root m = true ->
   mkdirs minio_obj path w = (Raise (ValueError CannotCreateRoot), w))
  /\ (Match.is_root m = false ->
      let there :=
        Minio.bucket_exists minio_obj (Match.bucket m) (store w) in
      let s1 :=
        if there then store w
        else Minio.make_bucket minio_obj (Match.bucket m) (store w) in
      let s2 :=
        if Match.is_bucket m then s1
        else Minio.put_object minio_obj (Match.bucket m) (Match.prefix m)
               "" [] s1 in
      mkdirs minio_obj path w
      = (Return tt,
         mkWorld s2
           (calls w
            ++ (if there then [] else [Minio.MakeBucket (Match.bucket m)])
            ++ (if Match.is_bucket m then []
                else [Minio.PutObject (Match.bucket m) (Match.prefix m)]))%list)).
Proof.
  intros H D.
  assert (F : Match.is_file m = false) by (unfold Match.is_file; now rewrite D).
  unfold mkdirs. rewrite (_validate_directory_run _ _ _ _ H), F. split.
  - intros R. unfold bind at 1, lift. now rewrite H, R.
  - intros R. cbv zeta.
    unfold bind at 1, lift. rewrite H, R.
    unfold bind at 1, bucket_exists, query. cbn [store].
    destruct (Minio.bucket_exists minio_obj (Match.bucket m) (store w));
      cbn [negb when]; unfold bind, ret, make_bucket, put_object, command;
      cbn [store calls];
      destruct (Match.is_bucket m); cbn [store calls app];
      rewrite <- ?app_assoc, ?app_nil_r; destruct w; reflexivity.
Qed.

(** [get] of a file reference. *)
Lemma get_file (path : string) (m : Match.t) (w : world S) :
  Match.new path = Return m ->
  Match.is_file m = true ->
  get minio_obj path w
  = match Minio.get_object minio_obj (Match.bucket m)
            (Match.relative_path m) (store w),
          Minio.stat_object minio_obj (Match.bucket m)
            (Match.relative_path m) (store w) with
    | Some data, Some details =>
        (Return (File (Match.filename m) path (object_metadata details)
                      data), w)
    | _, _ => (Raise (ValueError NoSuchFileOrDirectory), w)
    end.
Proof.
  intros H F. unfold get, bind at 1, lift.
  rewrite H, (file_is_not_bucket _ _ H F), F.
  unfold bind at 1, try_except, bind at 1, get_object.
  destruct (Minio.get_object minio_obj _ _ (store w)) as [data|];
    [|reflexivity].
  unfold bind, stat_object.
  now destruct (Minio.stat_object minio_obj _ _ (store w)) as [details|].
Qed.

(** X10: [get] refuses a reference that [is_bucket] holds of, the root
    included; for a file reference it returns a [File] named after the
    filename, carrying the bytes of [get_object] and the metadata of
    [stat_object], and raises "No such file or directory" when either of
    them reports no such key. *)
Theorem get_of_bucket_and_file (path : string) (m : Match.t) (w : world S) :
  Match.new path = Return m ->
  (Match.is_bucket m = true ->
   get minio_obj path w = (Raise (ValueError BucketNotRepresentable), w))
  /\ (Match.is_file m = true ->
      get minio_obj path w
      = match Minio.get_object minio_obj (Match.bucket m)
                (Match.relative_path m) (store w),
              Minio.stat_object minio_obj (Match.bucket m)
                (Match.relative_path m) (store w) with
        | Some data, Some details =>
            (Return (File (Match.filename m) path (object_metadata details)
                          data), w)
        | _, _ => (Raise (ValueError NoSuchFileOrDirectory), w)
        end).
Proof.
  intros H. split.
  - intros B. unfold get, bind at 1, lift. now rewrite H, B.
  - intros F. now apply get_file.
Qed.

(** X11: what [put_data] writes, [get] reads back: on a file reference
    [put_data] issues the single [put_object] of the key
    [relative_path], and on a server that gives back the object just
    put, [get] of the same path returns a [File] with the same bytes. *)
Theorem put_data_then_get (path data : string)
    (metadata : list (string * string)) (m : Match.t) (w : world S)
    (details : Minio.Object) :
  Match.new path = Return m ->
  Match.is_file m = true ->
  let stored :=
    Minio.put_object minio_obj (Match.bucket m) (Match.relative_path m)
      data metadata (store w) in
  Minio.get_object minio_obj (Match.bucket m) (Match.relative_path m) stored
  = Some data ->
  Minio.stat_object minio_obj (Match.bucket m) (Match.relative_path m) stored
  = Some details ->
  (put_data minio_obj path data metadata ;;; get minio_obj path) w
  = (Return (File (Match.filename m) path (object_metadata details) data),
     mkWorld stored
       (calls w ++ [Minio.PutObject (Match.bucket m) (Match.relative_path m)])).
Proof.
  intros H F stored G St.
  unfold bind at 1, put_data, bind at 1, lift. rewrite H.
  unfold put_object, command. fold stored.
  rewrite (get_file path m
             (mkWorld stored
                (calls w ++ [Minio.PutObject (Match.bucket m)
                                             (Match.relative_path m)]))
             H F).
  cbn [store]. fold stored. now rewrite G, St.
Qed.

End ObjectFacts.

Lemma put_data_then_get_witness :
  (put_data MemoryStore.client "/c/notes.txt" "hello" [] ;;;
   get MemoryStore.client "/c/notes.txt")
    (MemoryStore.start Runs.two_buckets)
  = (Return (File "notes.txt" "/c/notes.txt"
               (object_metadata (Minio.mkObject "c" "notes.txt" false None 5 []))
               "hello"),
     mkWorld [MemoryStore.mkBucket "b" (Some 5%Z) [Runs.file "top.txt" 3];
              MemoryStore.mkBucket "c" (Some 9%Z)
                [MemoryStore.mkEntry "notes.txt" None "hello" []]]
             [Minio.PutObject "c" "notes.txt"]).
Proof.
  apply (put_data_then_get MemoryStore.client "/c/notes.txt" "hello" []
           (Match.mk "/c/notes.txt" (Match.mkAttrDict "c" "" "notes.txt"))
           (MemoryStore.start Runs.two_buckets)
           (Minio.mkObject "c" "notes.txt" false None 5 []));
    reflexivity.
Defined.

Lemma mkdirs_calls_witness :
  mkdirs MemoryStore.client "/new/dir/" (MemoryStore.start Runs.two_buckets)
  = (Return tt,
     mkWorld
       [MemoryStore.mkBucket "b" (Some 5%Z) [Runs.file "top.txt" 3];
        MemoryStore.mkBucket "c" (Some 9%Z) [];
        MemoryStore.mkBucket "new" None [MemoryStore.mkEntry "dir/" None "" []]]
       [Minio.MakeBucket "new"; Minio.PutObject "new" "dir/"]).
Proof.
  apply (proj2 (mkdirs_calls MemoryStore.client "/new/dir/"
                  (Match.mk "/new/dir/" (Match.mkAttrDict "new" "dir/" ""))
                  (MemoryStore.start Runs.two_buckets) eq_refl eq_refl)
               eq_refl).
Defined.

Lemma get_of_bucket_and_file_witness :
  get MemoryStore.client "/b/top.txt" (MemoryStore.start Runs.two_buckets)
  = (Return (File "top.txt" "/b/top.txt"
               (object_metadata
                  (Minio.mkObject "b" "top.txt" false (Some 3%Z) 4 []))
               "data"),
     MemoryStore.start Runs.two_buckets).
Proof.
  apply (proj2 (get_of_bucket_and_file MemoryStore.client "/b/top.txt"
                  (Match.mk "/b/top.txt" (Match.mkAttrDict "b" "" "top.txt"))
                  (MemoryStore.start Runs.two_buckets) eq_refl) eq_refl).
Defined.

(** ** Metadata *)

Section MetadataFacts.

Context {lowering : Py.StrLower}.

Lemma dict_get_set (k k' : string) (v : meta_value) (d : dict) :
  dict_get k (dict_set k' v d) = if k' =? k then Some v else dict_get k d.
Proof.
  induction d as [|[k0 v0] d IH]; cbn [dict_set dict_get]; [reflexivity|].
  destruct (k0 =? k') eqn:E0.
  - apply String.eqb_eq in E0. subst k0. cbn [dict_get].
    now destruct (k' =? k).
  - cbn [dict_get]. rewrite IH.
    destruct (k0 =? k) eqn:E1; [|reflexivity].
    apply String.eqb_eq in E1. subst k0.
    rewrite String.eqb_sym in E0. now rewrite E0.
Qed.

Lemma dict_set_keys (x k : string) (v : meta_value) (d : dict) :
  In x (map fst (dict_set k v d)) <-> x = k \/ In x (map fst d).
Proof.
  induction d as [|[k0 v0] d IH]; cbn [dict_set map fst In].
  - intuition congruence.
  - destruct (k0 =? k) eqn:E0; cbn [map fst In].
    + apply String.eqb_eq in E0. subst k0. intuition congruence.
    + rewrite IH. intuition congruence.
Qed.

Lemma dict_set_nodup (k : string) (v : meta_value) (d : dict) :
  NoDup (map fst d) -> NoDup (map fst (dict_set k v d)).
Proof.
  induction d as [|[k0 v0] d IH]; cbn [dict_set map fst]; intros N.
  - constructor; [easy | constructor].
  - inversion N as [|? ? Hn N']; subst.
    destruct (k0 =? k) eqn:E0; cbn [map fst].
    + apply String.eqb_eq in E0. subst k0. now constructor.
    + constructor; [|now apply IH].
      rewrite dict_set_keys. intros [-> | Hin]; [|contradiction].
      now rewrite String.eqb_refl in E0.
Qed.

Lemma dict_get_absent (k : string) (d : dict) :
  ~ In k (map fst d) -> dict_get k d = None.
Proof.
  induction d as [|[k0 v0] d IH]; cbn [dict_get map fst In]; [reflexivity|].
  intros N. destruct (k0 =? k) eqn:E.
  - apply String.eqb_eq in E. tauto.
  - apply IH. tauto.
Qed.

Lemma find_snoc {A} (p : A -> bool) (l : list A) (x : A) :
  find p (l ++ [x])
  = match find p l with
    | Some y => Some y
    | None => if p x then Some x else None
    end.
Proof.
  induction l as [|y l IH]; cbn [app find]; [reflexivity|].
  now destruct (p y).
Qed.

Lemma extract_fold (k : string) (md : list (string * string)) (acc : dict) :
  dict_get k
    (fold_left (fun acc kv => dict_set (metadata_key (fst kv)) (MStr (snd kv)) acc)
               md acc)
  = match find (fun kv => metadata_key (fst kv) =? k) (rev md) with
    | Some kv => Some (MStr (snd kv))
    | None => dict_get k acc
    end
  /\ (NoDup (map fst acc) ->
      NoDup (map fst
               (fold_left
                  (fun acc kv => dict_set (metadata_key (fst kv)) (MStr (snd kv)) acc)
                  md acc))).
Proof.
  revert acc. induction md as [|x md IH]; intros acc; cbn [fold_left rev].
  - now split.
  - destruct (IH (dict_set (metadata_key (fst x)) (MStr (snd x)) acc))
      as [IH1 IH2].
    split.
    + rewrite IH1, find_snoc, dict_get_set.
      destruct (find _ (rev md)); [reflexivity|].
      now destruct (metadata_key (fst x) =? k).
    + intros N. now apply IH2, dict_set_nodup.
Qed.

(** X12: [_extract_metadata] files every header under the key
    [metadata_key], which is [str.lower] of its name without
    ["X-Amz-Meta-"], whatever function [str.lower] is; when two headers
    come to the same key the later one wins, no key occurs twice in the
    result, and every key comes from a header. *)
Theorem extract_metadata_lookup (md : list (string * string)) (k : string) :
  dict_get k (_extract_metadata md)
  = option_map (fun kv => MStr (snd kv))
      (find (fun kv => metadata_key (fst kv) =? k) (rev md))
  /\ NoDup (map fst (_extract_metadata md))
  /\ forall key, In key (map fst (_extract_metadata md)) ->
       exists header, In header (map fst md) /\ key = metadata_key header.
Proof.
  unfold _extract_metadata.
  change (fun acc kv => dict_set (Py.str_lower (Py.replace "X-Amz-Meta-" "" (fst kv)))
                          (MStr (snd kv)) acc)
    with (fun acc (kv : string * string) =>
            dict_set (metadata_key (fst kv)) (MStr (snd kv)) acc).
  destruct (extract_fold k md []) as [L N].
  split; [|split].
  - rewrite L. now destruct (find _ (rev md)).
  - apply N. constructor.
  - assert (G : forall acc key,
               In key (map fst
                         (fold_left
                            (fun acc (kv : string * string) =>
                               dict_set (metadata_key (fst kv)) (MStr (snd kv)) acc)
                            md acc)) ->
               In key (map fst acc)
               \/ exists header, In header (map fst md)
                                 /\ key = metadata_key header).
    { clear. induction md as [|x md IH]; intros acc key; cbn [fold_left].
      - now left.
      - intros Hin. destruct (IH _ _ Hin) as [Hk | (h & Hh & ->)].
        + apply dict_set_keys in Hk as [-> | Hk]; [|now left].
          right. exists (fst x). split; [now left | reflexivity].
        + right. exists h. split; [now right | reflexivity]. }
    intros key Hin. destruct (G [] key Hin) as [[] | E]. exact E.
Qed.

Lemma dict_get_update (k : string) (d extra : dict) :
  NoDup (map fst extra) ->
  dict_get k (dict_update d extra)
  = match dict_get k extra with
    | Some v => Some v
    | None => dict_get k d
    end.
Proof.
  unfold dict_update. revert d.
  induction extra as [|[k1 v1] extra IH]; intros d N; cbn [fold_left fst snd];
    [reflexivity|].
  inversion N as [|? ? Hn N']; subst.
  rewrite (IH _ N'), dict_get_set. cbn [dict_get].
  destruct (k1 =? k) eqn:E; [|reflexivity].
  apply String.eqb_eq in E. subst k1. now rewrite (dict_get_absent _ _ Hn).
Qed.

(** X13: in the metadata [get] returns, a header of the object comes
    before the derived entries: what the server stores under a header
    that comes to [is_dir], [last_modified] or [size] replaces the value
    derived from the object, and every other key is found as
    [_extract_metadata] filed it. *)
Theorem object_metadata_lookup (details : Minio.Object) (k : string) :
  dict_get k (object_metadata details)
  = match dict_get k (_extract_metadata (Minio.metadata details)) with
    | Some v => Some v
    | None =>
        dict_get k
          [("is_dir", MBool (Minio.is_dir details));
           ("last_modified", MTime (Minio.last_modified details));
           ("size", MInt (Minio.size details))]
    end.
Proof.
  unfold object_metadata. apply dict_get_update.
  apply (extract_fold k (Minio.metadata details) []). constructor.
Qed.

End MetadataFacts.

(** ** Which calls an operation makes *)

Section CallKinds.

Context {S : Type}.
Variable minio_obj : Minio.Client S.
Context {lowering : Py.StrLower}.
Variable local_utc_offset : Z.

Lemma read_only_out_of_fuel {A} : read_only (@out_of_fuel S A).
Proof. now intros w. Qed.

Lemma read_only_query {A} (f : S -> A) : read_only (query f).
Proof. now intros w. Qed.

Lemma read_only_isdir (path : string) : read_only (isdir minio_obj path).
Proof.
  unfold isdir. apply read_only_bind; [apply read_only_lift|]. intros m.
  apply read_only_bind; [apply read_only_exists|]. intros e.
  apply read_only_ret.
Qed.

Lemma read_only_get_destination (from_path to_path : string) :
  read_only (_get_destination minio_obj from_path to_path).
Proof. intros w. apply _get_destination_pure. Qed.

Lemma emits_remove_bucket (b : string) :
  emits removes (remove_bucket minio_obj b).
Proof.
  intros w. exists [Minio.RemoveBucket b]. unfold remove_bucket.
  now destruct (Minio.remove_bucket minio_obj b (store w)).
Qed.

Lemma emits_validate {A} (kind : Minio.call -> bool)
    (func : string -> M S A) (path : string) :
  (forall p, emits kind (func p)) -> emits kind (_validate_directory func path).
Proof.
  intros H. unfold _validate_directory.
  apply emits_bind; [apply read_only_emits, read_only_lift|].
  intros m. destruct (Match.is_file m);
    [apply read_only_emits, read_only_raise | apply H].
Qed.

Ltac quiet :=
  apply read_only_emits;
  first [ apply read_only_ret | apply read_only_raise | apply read_only_lift
        | apply read_only_out_of_fuel | apply read_only_query
        | apply read_only_exists | apply read_only_isdir
        | apply read_only_get_destination
        | apply read_only_get_objects_at | apply read_only_listdir ].

Ltac emitting :=
  repeat first
    [ quiet
    | apply emits_command; reflexivity
    | apply emits_remove_bucket
    | apply emits_when
    | apply emits_validate; intro
    | apply emits_bind; [|intro]
    | apply emits_try_except; [|intro]
    | match goal with
      | |- emits _ (if ?b then _ else _) => destruct b
      | |- emits _ (match ?e with _ => _ end) => destruct e
      end ].

Lemma emits_rmdir_visit (m : Match.t) (recursive : bool) (current : string) :
  emits removes (rmdir_visit minio_obj local_utc_offset m recursive current).
Proof. unfold rmdir_visit, remove_objects, remove_object. emitting. Qed.

Lemma emits_rmdir_walk (fuel : nat) (m : Match.t) (recursive : bool)
    (dirs_to_delete : list string) :
  emits removes
    (rmdir_walk minio_obj local_utc_offset fuel m recursive dirs_to_delete).
Proof.
  revert dirs_to_delete.
  induction fuel as [|fuel IH]; intros [|current rest]; cbn [rmdir_walk];
    try solve [emitting].
  apply emits_bind; [apply emits_rmdir_visit | intros dirs; apply IH].
Qed.

Lemma emits_rmdir (fuel : nat) (path : string) (recursive : bool) :
  emits removes (rmdir minio_obj local_utc_offset fuel path recursive).
Proof.
  revert path recursive.
  induction fuel as [|fuel IH]; intros path recursive; cbn [rmdir];
    [emitting|].
  apply emits_validate. intros p.
  apply emits_bind; [quiet|]. intros m.
  destruct (Match.is_root m).
  - destruct recursive; [|quiet]. unfold truncate_with.
    apply emits_bind; [quiet|]. intros buckets.
    apply emits_for_each. intros b. apply IH.
  - apply emits_bind; [apply emits_rmdir_walk|]. intros _. emitting.
Qed.

Lemma emits_mkdirs (path : string) : emits adds (mkdirs minio_obj path).
Proof.
  unfold mkdirs, bucket_exists, make_bucket, put_object. emitting.
Qed.

Lemma emits_copy_walk (fuel : nat) (from_path to_path : string)
    (dirs_to_copy : list string) (files_to_copy : list CopyTask) :
  emits adds
    (copy_walk minio_obj local_utc_offset fuel from_path to_path
       dirs_to_copy files_to_copy).
Proof.
  revert dirs_to_copy files_to_copy.
  induction fuel as [|fuel IH]; intros [|current rest] files;
    cbn [copy_walk]; try solve [emitting].
  apply emits_bind; [quiet|]. intros cm.
  apply emits_bind; [quiet|]. intros objs. cbv zeta.
  apply emits_bind; [|intros _; apply IH].
  apply emits_when, emits_mkdirs.
Qed.

Lemma emits_copy_recursively_with (cp : string -> string -> bool -> M S unit)
    (fuel : nat) (from_path to_path : string) :
  (forall a b r, emits adds (cp a b r)) ->
  emits adds
    (copy_recursively_with minio_obj local_utc_offset cp fuel from_path to_path).
Proof.
  intros H. unfold copy_recursively_with. apply emits_validate. intros p.
  apply emits_bind; [apply emits_copy_walk|]. intros files.
  apply emits_for_each. intros t. apply H.
Qed.

Lemma emits_cp (fuel : nat) (from_path to_path : string) (recursive : bool) :
  emits adds (cp minio_obj local_utc_offset fuel from_path to_path recursive).
Proof.
  revert from_path to_path recursive.
  induction fuel as [|fuel IH]; intros from_path to_path recursive; cbn [cp];
    [emitting|].
  apply emits_bind; [quiet|]. intros fm.
  apply emits_bind; [quiet|]. intros tm.
  destruct (Match.is_dir fm).
  - destruct recursive; [|quiet].
    apply emits_copy_recursively_with, IH.
  - unfold copy_object. emitting.
Qed.

(** X16: removing never creates anything: every call [rmdir], [rm] and
    [truncate] make of the client is [remove_objects], [remove_object] or
    [remove_bucket], whatever the path, the flag and the state of the
    server, and whether they return or raise. *)
Theorem removing_only_removes (fuel : nat) (path : string) (recursive : bool) :
  emits removes (rmdir minio_obj local_utc_offset fuel path recursive)
  /\ emits removes (rm minio_obj local_utc_offset fuel path recursive)
  /\ emits removes (truncate minio_obj local_utc_offset fuel).
Proof.
  split; [apply emits_rmdir|]. split.
  - unfold rm. apply emits_bind; [quiet|]. intros d.
    destruct d; [apply emits_rmdir|]. unfold remove_object. emitting.
  - unfold truncate, truncate_with. apply emits_bind; [quiet|].
    intros buckets. apply emits_for_each. intros b. apply emits_rmdir.
Qed.

(** X17: copying and creating never remove anything: every call
    [mkdirs], [put_data], [cp] and [copy_recursively] make of the client
    is [make_bucket], [put_object] or [copy_object]. *)
Theorem copying_never_removes (fuel : nat) (path to_path data : string)
    (metadata : list (string * string)) (recursive : bool) :
  emits adds (mkdirs minio_obj path)
  /\ emits adds (put_data minio_obj path data metadata)
  /\ emits adds (cp minio_obj local_utc_offset fuel path to_path recursive)
  /\ emits adds
       (copy_recursively minio_obj local_utc_offset fuel path to_path).
Proof.
  split; [apply emits_mkdirs|]. split; [|split].
  - unfold put_data, put_object. emitting.
  - apply emits_cp.
  - unfold copy_recursively. apply emits_copy_recursively_with.
    intros a b r. apply emits_cp.
Qed.

End CallKinds.

(** ** Copying and moving *)

Lemma startswith_sep_app (s t : string) :
  s <> "" -> Py.startswith_sep (s ++ t) = Py.startswith_sep s.
Proof. destruct s; [congruence | reflexivity]. Qed.

(** The key of a reference does not start with a separator, and its
    bucket has none. *)
Lemma reference_key (raw : string) (m : Match.t) :
  Match.new raw = Return m -> Match.is_root m = false ->
  Match.bucket m <> ""
  /\ Py.contains "/" (Match.bucket m) = false
  /\ Py.startswith_sep (Match.relative_path m) = false.
Proof.
  intros H R.
  destruct (new_groups _ _ H R) as (pre & f & G & Ep & Ef).
  pose proof (path_no_double m) as ND.
  destruct (path_groups_shape _ _ _ _ G ND)
    as (r2 & P & Bne & Bs & _ & Hpre & L & Hf).
  split; [exact Bne|]. split; [exact Bs|].
  rewrite (relative_path_concat _ _ H).
  assert (Ff : Py.startswith_sep (Match.filename m) = false).
  { apply no_sep_startswith. rewrite Ef, Hf.
    destruct (PathSpec.split_filename r2) as [[v r]|] eqn:E; [|reflexivity].
    now destruct (split_filename_no_sep _ _ _ L E). }
  rewrite Ep. destruct Hpre as [-> | (v & -> & Hv & _)]; [exact Ff|].
  cbn [PathSpec.or_empty] in *.
  assert (Vne : v <> "") by (intros ->; discriminate Hv).
  rewrite (startswith_sep_app _ _ Vne).
  rewrite P in ND.
  replace ("/" ++ Match.bucket m ++ "/" ++ v ++ r2)
    with (("/" ++ Match.bucket m) ++ String "/" (v ++ r2)) in ND
    by (simpl; rewrite ?append_assoc_s; reflexivity).
  apply no_double_sep_app_r in ND. cbn [PathSpec.no_double_sep] in ND.
  apply andb_prop in ND as [ND _]. apply negb_true_iff in ND.
  change (Py.is_sep "/") with true in ND. cbn [andb] in ND.
  now rewrite (startswith_sep_app _ _ Vne) in ND.
Qed.

(** [join(bucket, relative_path)], the source handed to [copy_object]. *)
Lemma copy_source (raw : string) (m : Match.t) :
  Match.new raw = Return m -> Match.is_root m = false ->
  Py.join (Match.bucket m) [Match.relative_path m]
  = Match.bucket m ++ "/" ++ Match.relative_path m.
Proof.
  intros H R. destruct (reference_key _ _ H R) as (Bne & Bs & St).
  rewrite join_one. unfold Py.join2. rewrite St, (no_sep_endswith _ Bs).
  destruct (Match.bucket m =? "") eqn:E; [|reflexivity].
  apply String.eqb_eq in E. contradiction.
Qed.

Section CopyFacts.

Context {S : Type}.
Variable minio_obj : Minio.Client S.
Context {lowering : Py.StrLower}.
Variable local_utc_offset : Z.

(** X18: [cp] of a file makes one call of the client, [copy_object],
    and nothing else: the destination is the one
    [infer_operation_destination] gives, the source is
    [bucket + "/" + key] of the file; where no destination can be
    inferred the error is raised before any call.  Whether the source
    exists is never asked, and [recursive] plays no part. *)
Theorem cp_file (fuel : nat) (from_path to_path : string) (recursive : bool)
    (from_match to_match : Match.t) (w : world S) :
  Match.new from_path = Return from_match ->
  Match.is_file from_match = true ->
  Match.new to_path = Return to_match ->
  cp minio_obj local_utc_offset (Datatypes.S fuel) from_path to_path recursive w
  = match Match.infer_operation_destination from_match to_match with
    | Return dst =>
        let source :=
          Match.bucket from_match ++ "/" ++ Match.relative_path from_match in
        (Return tt,
         mkWorld
           (Minio.copy_object minio_obj (Match.bucket dst)
              (Match.relative_path dst) source (store w))
           (calls w ++ [Minio.CopyObject (Match.bucket dst)
                          (Match.relative_path dst) source]))
    | Raise e => (Raise e, w)
    | OutOfFuel => (OutOfFuel, w)
    end.
Proof.
  intros Hf F Ht. cbn [cp]. unfold bind at 1, lift. rewrite Hf.
  unfold bind at 1, _get_destination, bind at 1, lift. rewrite Hf.
  unfold bind at 1. rewrite Ht, F.
  destruct (Match.infer_operation_destination from_match to_match)
    as [dst|e|]; [|reflexivity..].
  unfold Match.is_file in F. apply negb_true_iff in F. rewrite F.
  destruct (file_reference _ _ Hf) as (R & _);
    [unfold Match.is_file; now rewrite F|].
  cbv zeta. rewrite <- (copy_source _ _ Hf R). reflexivity.
Qed.

(** X19: [cp] of a directory without [recursive] copies nothing: it
    raises a [ValueError] and makes no call.  The error is "can not
    activate this method from directory to a file" when the destination
    is a file reference, and "copying a directory must be done
    recursively" when the destination is a directory that does not
    exist. *)
Theorem cp_directory_not_recursive (fuel : nat) (from_path to_path : string)
    (from_match : Match.t) (w : world S) :
  Match.new from_path = Return from_match ->
  Match.is_dir from_match = true ->
  exists why,
    cp minio_obj local_utc_offset (Datatypes.S fuel) from_path to_path false w
    = (Raise (ValueError why), w)
    /\ (Match.new to_path = Raise (ValueError NotAValidPath) ->
        why = NotAValidPath)
    /\ (forall to_match, Match.new to_path = Return to_match ->
          Match.is_file to_match = true -> why = DirectoryToFile)
    /\ (forall to_match, Match.new to_path = Return to_match ->
          Match.is_dir to_match = true ->
          exists_value minio_obj (Match.path to_match) w = false ->
          why = CopyDirectoryNotRecursive).
Proof.
  intros Hf D. cbn [cp]. unfold bind at 1, lift. rewrite Hf.
  unfold bind at 1, _get_destination, bind at 1, lift. rewrite Hf.
  unfold bind at 1. unfold Match.is_file at 1. rewrite D. cbn [negb].
  destruct (Match.new to_path) as [tm|e|] eqn:Ht.
  - unfold Match.is_file. destruct (Match.is_dir tm) eqn:Dt.
    + unfold bind at 1. rewrite exists_run.
      destruct (exists_value minio_obj (Match.path tm) w) eqn:E.
      * unfold lift.
        destruct (Match.new (Py.join _ _)) as [tm'|e|] eqn:Hj.
        -- exists CopyDirectoryNotRecursive. split; [reflexivity|].
           split; [discriminate|]. split.
           ++ intros tm2 [= <-]. now rewrite Dt.
           ++ intros tm2 [= <-] _ E2. congruence.
        -- apply new_raises in Hj. subst e.
           exists NotAValidPath. split; [reflexivity|].
           split; [reflexivity|]. split.
           ++ intros tm2 [= <-]. now rewrite Dt.
           ++ intros tm2 [= <-] _ E2. congruence.
        -- now apply new_never_out_of_fuel in Hj.
      * exists CopyDirectoryNotRecursive. split; [reflexivity|].
        split; [discriminate|]. split.
        -- intros tm2 [= <-]. now rewrite Dt.
        -- reflexivity.
    + exists DirectoryToFile. split; [reflexivity|].
      split; [discriminate|]. split; [reflexivity|].
      intros tm2 [= <-] D2. congruence.
  - apply new_raises in Ht. subst e.
    exists NotAValidPath. split; [reflexivity|].
    split; [reflexivity|]. split; discriminate.
  - now apply new_never_out_of_fuel in Ht.
Qed.

(** X20: a directory cannot be copied or moved onto a file path: [cp]
    and [mv] raise "can not activate this method from directory to a
    file" before any call, so that the source of the [mv] stays as it
    is. *)
Theorem directory_onto_file (fuel : nat) (from_path to_path : string)
    (recursive : bool) (from_match to_match : Match.t) (w : world S) :
  Match.new from_path = Return from_match ->
  Match.is_dir from_match = true ->
  Match.new to_path = Return to_match ->
  Match.is_file to_match = true ->
  cp minio_obj local_utc_offset (Datatypes.S fuel) from_path to_path recursive w
  = (Raise (ValueError DirectoryToFile), w)
  /\ mv minio_obj local_utc_offset fuel from_path to_path recursive w
     = (Raise (ValueError DirectoryToFile), w).
Proof.
  intros Hf D Ht F.
  assert (G : _get_destination minio_obj from_path to_path w
              = (Raise (ValueError DirectoryToFile), w)).
  { unfold _get_destination, bind at 1, lift. rewrite Hf.
    unfold bind at 1. rewrite Ht. unfold Match.is_file at 1. rewrite D.
    cbn [negb]. unfold Match.is_file in F. apply negb_true_iff in F.
    now rewrite F. }
  split.
  - cbn [cp]. unfold bind at 1, lift. rewrite Hf.
    unfold bind at 1. now rewrite G.
  - unfold mv, bind at 1. now rewrite G.
Qed.

(** X21: [rm] hands the path of an existing directory to [rmdir], and
    for every other valid path makes the one call [remove_object] with
    its bucket and key, without asking whether the object exists; a path
    the grammar rejects raises before any call. *)
Theorem rm_dispatch (fuel : nat) (path : string) (recursive : bool)
    (w : world S) :
  rm minio_obj local_utc_offset fuel path recursive w
  = match Match.new path with
    | Return m =>
        if exists_value minio_obj path w && Match.is_dir m
        then rmdir minio_obj local_utc_offset fuel path recursive w
        else
          (Return tt,
           mkWorld
             (Minio.remove_object minio_obj (Match.bucket m)
                (Match.relative_path m) (store w))
             (calls w ++ [Minio.RemoveObject (Match.bucket m)
                            (Match.relative_path m)]))
    | Raise e => (Raise e, w)
    | OutOfFuel => (OutOfFuel, w)
    end.
Proof.
  unfold rm, isdir, bind at 1, bind at 1, lift.
  destruct (Match.new path) as [m|e|] eqn:H; [|reflexivity..].
  unfold bind at 1. rewrite exists_run. unfold ret.
  destruct (exists_value minio_obj path w && Match.is_dir m); [reflexivity|].
  reflexivity.
Qed.

End CopyFacts.

(** ** Listings of files *)

Lemma length_app_s (s t : string) :
  String.length (s ++ t) = String.length s + String.length t.
Proof. induction s as [|a s IH]; simpl; [reflexivity | now rewrite IH]. Qed.

Lemma substring_skip (p s : string) (k : nat) :
  substring (String.length p) k (p ++ s) = substring 0 k s.
Proof. induction p as [|a p IH]; simpl; [reflexivity | exact IH]. Qed.

Lemma substring_all (s : string) : substring 0 (String.length s) s = s.
Proof. induction s as [|a s IH]; simpl; [reflexivity | now rewrite IH]. Qed.

Lemma strip_front_app (p name : string) :
  PathSpec.strip_front p (p ++ name) = name.
Proof.
  unfold PathSpec.strip_front. rewrite prefix_app, length_app_s.
  replace (String.length p + String.length name - String.length p)
    with (String.length name) by lia.
  now rewrite substring_skip, substring_all.
Qed.

(** The prefix of a reference is empty or ends with a separator. *)
Lemma prefix_shape (raw : string) (m : Match.t) :
  Match.new raw = Return m ->
  Match.prefix m = "" \/ Py.endswith_sep (Match.prefix m) = true.
Proof.
  intros H. destruct (Match.is_root m) eqn:R.
  - left. now destruct (new_root _ _ H R) as (_ & P & _).
  - destruct (new_groups _ _ H R) as (pre & f & G & Ep & _).
    destruct (path_groups_shape _ _ _ _ G (path_no_double m))
      as (r2 & _ & _ & _ & _ & Hpre & _).
    rewrite Ep. destruct Hpre as [-> | (v & -> & Hv & _)];
      [now left | now right].
Qed.

Lemma StronglySorted_filter {A} (R : A -> A -> Prop) (f : A -> bool)
    (l : list A) :
  StronglySorted R l -> StronglySorted R (filter f l).
Proof.
  induction 1 as [|x l Hl IH Hx]; cbn [filter]; [constructor|].
  destruct (f x); [|exact IH].
  constructor; [exact IH|].
  apply Forall_forall. intros y Hy. apply filter_In in Hy as [Hy _].
  revert y Hy. now apply Forall_forall.
Qed.

Lemma replace_self (s : string) : s <> "" -> Py.replace s "" s = "".
Proof.
  destruct s as [|a s]; [congruence|]. intros _.
  unfold Py.replace. cbn [Py.replace_from].
  replace (prefix (String a s) (String a s)) with true
    by (symmetry; rewrite <- (append_empty_r (String a s)) at 2;
        apply prefix_app).
  replace (String.length (String a s) - 1) with (String.length s)
    by (cbn [String.length]; lia).
  cbn [append].
  pose proof (replace_from_skip (String a s) "" s "") as K.
  rewrite append_empty_r in K. now rewrite K.
Qed.

Section ListingFacts.

Context {S : Type}.
Variable minio_obj : Minio.Client S.
Context {lowering : Py.StrLower}.
Variable local_utc_offset : Z.

(** [listdir] of a directory other than the root, for either value of
    [only_files]. *)
Lemma listdir_run (path : string) (only_files : bool) (m : Match.t)
    (w : world S) :
  Match.new path = Return m ->
  Match.is_dir m = true ->
  Match.is_root m = false ->
  listdir minio_obj local_utc_offset path only_files w
  = (Return
       (map (fun obj => Py.replace (Match.prefix m) "" (Minio.object_name obj))
          (filter (fun obj => negb only_files || negb (Minio.is_dir obj))
             (Py.sorted_reverse (get_last_modified local_utc_offset)
                (Minio.list_objects minio_obj (Match.bucket m) (Match.prefix m)
                   (store w))))),
     w).
Proof.
  intros H D R. unfold listdir.
  rewrite (_validate_directory_run _ _ _ _ H).
  unfold Match.is_file. rewrite D. cbn [negb].
  unfold bind at 1, lift. rewrite H, R. reflexivity.
Qed.

(** X22: where the keys listed under a directory are the prefix followed
    by a name without separator (the files that lie in the directory),
    [listdir] returns exactly these names, newest first: the prefix is
    taken off the front and nothing else is touched. *)
Theorem listdir_names_of_files (path : string) (only_files : bool)
    (m : Match.t) (w : world S) :
  Match.new path = Return m ->
  Match.is_dir m = true ->
  Match.is_root m = false ->
  (forall obj,
     In obj (Minio.list_objects minio_obj (Match.bucket m) (Match.prefix m)
               (store w)) ->
     exists name,
       Minio.object_name obj = Match.prefix m ++ name
       /\ Py.contains "/" name = false) ->
  exists objs,
    objs = filter (fun obj => negb only_files || negb (Minio.is_dir obj))
             (Py.sorted_reverse (get_last_modified local_utc_offset)
                (Minio.list_objects minio_obj (Match.bucket m) (Match.prefix m)
                   (store w)))
    /\ listdir minio_obj local_utc_offset path only_files w
       = (Return
            (map (fun obj =>
                    PathSpec.strip_front (Match.prefix m) (Minio.object_name obj))
                 objs), w)
    /\ Forall2 (fun obj name => Minio.object_name obj = Match.prefix m ++ name)
         objs
         (map (fun obj =>
                 PathSpec.strip_front (Match.prefix m) (Minio.object_name obj))
              objs).
Proof.
  intros H D R K. eexists. split; [reflexivity|].
  assert (K' : forall obj,
             In obj (filter (fun obj => negb only_files || negb (Minio.is_dir obj))
                       (Py.sorted_reverse (get_last_modified local_utc_offset)
                          (Minio.list_objects minio_obj (Match.bucket m)
                             (Match.prefix m) (store w)))) ->
             exists name,
               Minio.object_name obj = Match.prefix m ++ name
               /\ Py.contains "/" name = false).
  { intros obj Hin. apply filter_In in Hin as [Hin _]. apply K.
    eapply Permutation_in; [apply sorted_reverse_perm | exact Hin]. }
  split.
  - rewrite (listdir_run _ _ _ _ H D R). f_equal. f_equal.
    apply map_ext_in. intros obj Hin.
    destruct (K' obj Hin) as (name & -> & Hn).
    rewrite strip_front_app.
    apply replace_strips_prefix_of_file; [apply (prefix_shape _ _ H) | exact Hn].
  - revert K'. generalize (filter (fun obj => negb only_files || negb (Minio.is_dir obj))
                (Py.sorted_reverse (get_last_modified local_utc_offset)
                   (Minio.list_objects minio_obj (Match.bucket m)
                      (Match.prefix m) (store w)))).
    intros l. induction l as [|obj l IH]; intros K'; cbn [map]; constructor.
    + destruct (K' obj (or_introl eq_refl)) as (name & E & _).
      rewrite E. now rewrite strip_front_app.
    + apply IH. intros o Ho. apply K'. now right.
Qed.

(** X23: [get_last_object] returns [None] for the root and for a
    directory whose listing has no file; otherwise it asks [get] for one
    file of the listing, and no file of the listing is newer than that
    one by [get_last_modified]. *)
Theorem get_last_object_newest (path : string) (m : Match.t) (w : world S) :
  Match.new path = Return m ->
  Match.is_dir m = true ->
  let key := get_last_modified local_utc_offset in
  let native :=
    Minio.list_objects minio_obj (Match.bucket m) (Match.prefix m) (store w) in
  (Match.is_root m = true ->
   get_last_object minio_obj local_utc_offset path w = (Return None, w))
  /\ (Match.is_root m = false ->
      (forall obj, In obj native -> Minio.is_dir obj = true) ->
      get_last_object minio_obj local_utc_offset path w = (Return None, w))
  /\ (Match.is_root m = false ->
      (exists obj, In obj native /\ Minio.is_dir obj = false) ->
      exists obj,
        In obj native /\ Minio.is_dir obj = false
        /\ (forall other, In other native -> Minio.is_dir other = false ->
              (key other <= key obj)%Z)
        /\ get_last_object minio_obj local_utc_offset path w
           = (match
                 fst (get minio_obj
                        (Py.join ROOT
                           [Match.bucket m;
                            Py.join (Match.prefix m)
                              [Py.replace (Match.prefix m) ""
                                 (Minio.object_name obj)]]) w)
               with
               | Return o => Return (Some o)
               | Raise e => Raise e
               | OutOfFuel => OutOfFuel
               end, w)).
Proof.
  intros H D key native.
  assert (F : Match.is_file m = false) by (unfold Match.is_file; now rewrite D).
  assert (U : get_last_object minio_obj local_utc_offset path w
              = (objects_names_in_dir <-
                   listdir minio_obj local_utc_offset path true ;;
                 match objects_names_in_dir with
                 | [] => ret None
                 | last_object_name :: _ =>
                     o <- get minio_obj
                            (Py.join ROOT
                               [Match.bucket m;
                                Py.join (Match.prefix m) [last_object_name]]) ;;
                     ret (Some o)
                 end) w).
  { unfold get_last_object. rewrite (_validate_directory_run _ _ _ _ H), F.
    unfold bind at 1, lift. now rewrite H. }
  rewrite U. clear U. split; [|split].
  - intros R. unfold bind, listdir.
    rewrite (_validate_directory_run _ _ _ _ H), F.
    unfold bind, lift. now rewrite H, R.
  - intros R A. unfold bind at 1. rewrite (listdir_run _ _ _ _ H D R).
    fold key native.
    destruct (filter _ (Py.sorted_reverse key native)) as [|o l] eqn:E;
      [reflexivity|].
    exfalso.
    assert (Hin : In o (filter (fun obj => negb true || negb (Minio.is_dir obj))
                          (Py.sorted_reverse key native)))
      by (rewrite E; now left).
    apply filter_In in Hin as [Hin Hf].
    rewrite (A o) in Hf; [discriminate|].
    eapply Permutation_in; [apply sorted_reverse_perm | exact Hin].
  - intros R (obj0 & Hin0 & Hd0). unfold bind at 1.
    rewrite (listdir_run _ _ _ _ H D R). fold key native.
    pose proof (StronglySorted_filter _
                  (fun obj => negb true || negb (Minio.is_dir obj)) _
                  (sorted_reverse_sorted key native)) as So.
    assert (Mem : forall o,
               In o (filter (fun obj => negb true || negb (Minio.is_dir obj))
                       (Py.sorted_reverse key native))
               <-> In o native /\ Minio.is_dir o = false).
    { intros o. rewrite filter_In. cbn [negb orb]. rewrite negb_true_iff.
      split; intros [A B]; (split; [|exact B]).
      - eapply Permutation_in; [apply sorted_reverse_perm | exact A].
      - eapply Permutation_in;
          [apply Permutation_sym, sorted_reverse_perm | exact A]. }
    destruct (filter _ (Py.sorted_reverse key native)) as [|o l] eqn:E.
    { exfalso. now apply (proj2 (Mem obj0)). }
    exists o. destruct (proj1 (Mem o) (or_introl eq_refl)) as [Ho Hd].
    split; [exact Ho|]. split; [exact Hd|]. split.
    + intros other Hi Hdo.
      destruct (proj2 (Mem other) (conj Hi Hdo)) as [<- | Hl]; [lia|].
      apply StronglySorted_inv in So as [_ Fa].
      exact (proj1 (Forall_forall _ _) Fa other Hl).
    + cbn [map]. unfold bind, ret.
      destruct (get_pure minio_obj
                  (Py.join ROOT
                     [Match.bucket m;
                      Py.join (Match.prefix m)
                        [Py.replace (Match.prefix m) "" (Minio.object_name o)]])
                  w) as (r & -> & _).
      cbn [fst]. now destruct r.
Qed.

(** X24: [copy_recursively] of a directory that lists nothing creates
    the destination and copies nothing: on a source path without doubled
    separators it does what [mkdirs] does on the destination path
    followed by a separator. *)
Theorem copy_recursively_of_empty_directory (fuel : nat)
    (from_path to_path : string) (m : Match.t) (w : world S) :
  Match.new from_path = Return m ->
  Match.is_dir m = true ->
  Match.is_root m = false ->
  PathSpec.no_double_sep from_path = true ->
  Minio.list_objects minio_obj (Match.bucket m) (Match.prefix m) (store w)
  = [] ->
  copy_recursively minio_obj local_utc_offset (Datatypes.S fuel)
    from_path to_path w
  = mkdirs minio_obj (Py.join to_path [""]) w.
Proof.
  intros H D _ ND E.
  assert (F : Match.is_file m = false) by (unfold Match.is_file; now rewrite D).
  assert (P : Match.path m = from_path).
  { apply new_inv in H as [Hp _]. unfold Match.path, Match.normalize.
    rewrite Hp. now apply collapse_fixed. }
  assert (Ne : from_path <> "").
  { intros ->. discriminate H. }
  unfold copy_recursively, copy_recursively_with.
  rewrite (_validate_directory_run _ _ _ _ H), F.
  unfold bind at 1. cbn [copy_walk].
  unfold bind at 1, lift. rewrite H.
  unfold bind at 1.
  replace (_get_objects_at minio_obj local_utc_offset m w)
    with (Return (@nil Minio.Object), w)
    by (unfold _get_objects_at, bind, list_objects, query, ret;
        now rewrite E).
  cbn [Py.sorted_reverse filter map nonempty negb when app].
  rewrite P, (replace_self _ Ne).
  unfold bind at 1.
  destruct (mkdirs minio_obj (Py.join to_path [""]) w) as [[[]|e|] w'];
    [|reflexivity..].
  now destruct fuel.
Qed.

End ListingFacts.

(** ** Directories as objects *)

Section FolderFacts.

Context {S : Type}.
Variable minio_obj : Minio.Client S.
Context {lowering : Py.StrLower}.

(** X25: [get] finds a directory through the listing of its parent
    only: it returns a [Folder] for the first object listed there whose
    name is the key of the reference, named after the last component of
    that key with a separator, and raises "No such file or directory"
    when the parent lists no such object; the server is not changed. *)
Theorem get_of_directory (path : string) (m : Match.t) (w : world S) :
  Match.new path = Return m ->
  Match.is_dir m = true ->
  Match.is_bucket m = false ->
  get minio_obj path w
  = match
      filter (fun obj => Minio.object_name obj =? Match.prefix m)
        (Minio.list_objects minio_obj (Match.bucket m)
           (Py.join (Py.dirname (Py.normpath (Match.prefix m))) [""])
           (store w))
    with
    | details :: _ =>
        (Return
           (Folder (Py.join (Py.basename (Py.normpath (Match.prefix m))) [""])
                   path (object_metadata details)), w)
    | [] => (Raise (ValueError NoSuchFileOrDirectory), w)
    end.
Proof.
  intros H D B.
  assert (Rp : Match.relative_path m = Match.prefix m).
  { rewrite (relative_path_concat _ _ H).
    unfold Match.is_dir in D. apply String.eqb_eq in D.
    now rewrite D, append_empty_r. }
  unfold get, bind at 1, lift. rewrite H, B.
  unfold Match.is_file. rewrite D. cbn [negb]. cbv zeta.
  unfold bind at 1, try_except, bind at 1, list_objects, query.
  unfold bind at 1, next_matching. rewrite Rp.
  destruct (filter _ _) as [|details l] eqn:E; [reflexivity|].
  assert (On : Minio.object_name details = Match.prefix m).
  { assert (Hin : In details (details :: l)) by now left.
    rewrite <- E in Hin. apply filter_In in Hin as [_ Hn].
    now apply String.eqb_eq. }
  unfold ret, bind. now rewrite On.
Qed.

End FolderFacts.

(** ** The facts above, on the in-memory client *)

(** Headers of one object: the prefix is taken off as it is written, the
    rest is lower-cased, and of two headers that come to the same key the
    later one stays, at the place of the first. *)
Lemma extract_metadata_run :
  _extract_metadata
    [("X-Amz-Meta-Owner", "ann"); ("Content-Type", "text/plain");
     ("X-Amz-Meta-OWNER", "bob"); ("x-amz-meta-Team", "core")]
  = [("owner", MStr "bob"); ("content-type", MStr "text/plain");
     ("x-amz-meta-team", MStr "core")].
Proof. reflexivity. Qed.

Lemma directory_operations_refuse_files_witness :
  listdir MemoryStore.client 0 "/b/top.txt" false
    (MemoryStore.start Runs.two_buckets)
  = (Raise (ValueError NotADirectoryPath), MemoryStore.start Runs.two_buckets)
  /\ mkdirs MemoryStore.client "/b/top.txt" (MemoryStore.start Runs.two_buckets)
     = (Raise (ValueError NotADirectoryPath),
        MemoryStore.start Runs.two_buckets)
  /\ rmdir MemoryStore.client 0 1 "/b/top.txt" false
       (MemoryStore.start Runs.two_buckets)
     = (Raise (ValueError NotADirectoryPath),
        MemoryStore.start Runs.two_buckets)
  /\ copy_recursively MemoryStore.client 0 0 "/b/top.txt" "/c/"
       (MemoryStore.start Runs.two_buckets)
     = (Raise (ValueError NotADirectoryPath),
        MemoryStore.start Runs.two_buckets)
  /\ get_last_object MemoryStore.client 0 "/b/top.txt"
       (MemoryStore.start Runs.two_buckets)
     = (Raise (ValueError NotADirectoryPath),
        MemoryStore.start Runs.two_buckets).
Proof.
  apply (directory_operations_refuse_files MemoryStore.client 0 0
           "/b/top.txt" "/c/" false
           (Match.mk "/b/top.txt" (Match.mkAttrDict "b" "" "top.txt"))
           (MemoryStore.start Runs.two_buckets));
    reflexivity.
Defined.

Lemma cp_file_witness :
  cp MemoryStore.client 0 1 "/b/top.txt" "/c/" false
    (MemoryStore.start Runs.two_buckets)
  = (Return tt,
     mkWorld
       [MemoryStore.mkBucket "b" (Some 5%Z) [Runs.file "top.txt" 3];
        MemoryStore.mkBucket "c" (Some 9%Z) [Runs.file "top.txt" 3]]
       [Minio.CopyObject "c" "top.txt" "b/top.txt"]).
Proof.
  apply (cp_file MemoryStore.client 0 0 "/b/top.txt" "/c/" false
           (Match.mk "/b/top.txt" (Match.mkAttrDict "b" "" "top.txt"))
           (Match.mk "/c/" (Match.mkAttrDict "c" "" ""))
           (MemoryStore.start Runs.two_buckets));
    reflexivity.
Defined.

Lemma cp_directory_not_recursive_witness :
  exists why,
    cp MemoryStore.client 0 1 "/b/" "/zz/" false
      (MemoryStore.start Runs.two_buckets)
    = (Raise (ValueError why), MemoryStore.start Runs.two_buckets)
    /\ (Match.new "/zz/" = Raise (ValueError NotAValidPath) ->
        why = NotAValidPath)
    /\ (forall to_match, Match.new "/zz/" = Return to_match ->
          Match.is_file to_match = true -> why = DirectoryToFile)
    /\ (forall to_match, Match.new "/zz/" = Return to_match ->
          Match.is_dir to_match = true ->
          exists_value MemoryStore.client (Match.path to_match)
            (MemoryStore.start Runs.two_buckets) = false ->
          why = CopyDirectoryNotRecursive).
Proof.
  apply (cp_directory_not_recursive MemoryStore.client 0 0 "/b/" "/zz/"
           (Match.mk "/b/" (Match.mkAttrDict "b" "" ""))
           (MemoryStore.start Runs.two_buckets));
    reflexivity.
Defined.

Lemma directory_onto_file_witness :
  cp MemoryStore.client 0 1 "/b/" "/c/copy.txt" true
    (MemoryStore.start Runs.two_buckets)
  = (Raise (ValueError DirectoryToFile), MemoryStore.start Runs.two_buckets)
  /\ mv MemoryStore.client 0 3 "/b/" "/c/copy.txt" true
       (MemoryStore.start Runs.two_buckets)
     = (Raise (ValueError DirectoryToFile), MemoryStore.start Runs.two_buckets).
Proof.
  apply (directory_onto_file MemoryStore.client 0 0 "/b/" "/c/copy.txt" true
           (Match.mk "/b/" (Match.mkAttrDict "b" "" ""))
           (Match.mk "/c/copy.txt" (Match.mkAttrDict "c" "" "copy.txt"))
           (MemoryStore.start Runs.two_buckets));
    reflexivity.
Defined.

Lemma listdir_names_of_files_witness :
  listdir MemoryStore.client 0 "/b/docs/" false
    (MemoryStore.start docs_and_empty)
  = (Return ["b.txt"; "a.txt"], MemoryStore.start docs_and_empty).
Proof.
  destruct (listdir_names_of_files MemoryStore.client 0 "/b/docs/" false
              (Match.mk "/b/docs/" (Match.mkAttrDict "b" "docs/" ""))
              (MemoryStore.start docs_and_empty)
              eq_refl eq_refl eq_refl) as (objs & -> & L & _).
  - intros obj [<- | [<- | []]];
      [exists "a.txt" | exists "b.txt"]; split; reflexivity.
  - exact L.
Defined.

Lemma get_last_object_newest_witness :
  exists obj,
    In obj (Minio.list_objects MemoryStore.client "b" "docs/"
              (store (MemoryStore.start docs_and_empty)))
    /\ Minio.is_dir obj = false
    /\ (forall other,
          In other (Minio.list_objects MemoryStore.client "b" "docs/"
                      (store (MemoryStore.start docs_and_empty))) ->
          Minio.is_dir other = false ->
          (get_last_modified 0 other <= get_last_modified 0 obj)%Z)
    /\ get_last_object MemoryStore.client 0 "/b/docs/"
         (MemoryStore.start docs_and_empty)
       = (match
             fst (get MemoryStore.client
                    (Py.join ROOT
                       ["b"; Py.join "docs/"
                               [Py.replace "docs/" "" (Minio.object_name obj)]])
                    (MemoryStore.start docs_and_empty))
           with
           | Return o => Return (Some o)
           | Raise e => Raise e
           | OutOfFuel => OutOfFuel
           end, MemoryStore.start docs_and_empty).
Proof.
  apply (proj2 (proj2 (get_last_object_newest MemoryStore.client 0 "/b/docs/"
                         (Match.mk "/b/docs/" (Match.mkAttrDict "b" "docs/" ""))
                         (MemoryStore.start docs_and_empty) eq_refl eq_refl))
               eq_refl).
  exists (Minio.mkObject "b" "docs/a.txt" false (Some 3%Z) 4 []).
  split; [now left | reflexivity].
Defined.

Lemma copy_recursively_of_empty_directory_witness :
  copy_recursively MemoryStore.client 0 1 "/e/empty/" "/b/copy"
    (MemoryStore.start docs_and_empty)
  = mkdirs MemoryStore.client (Py.join "/b/copy" [""])
      (MemoryStore.start docs_and_empty).
Proof.
  apply (copy_recursively_of_empty_directory MemoryStore.client 0 0
           "/e/empty/" "/b/copy"
           (Match.mk "/e/empty/" (Match.mkAttrDict "e" "empty/" "")));
    reflexivity.
Defined.

Lemma get_of_directory_witness :
  get MemoryStore.client "/b/a/sub/" (MemoryStore.start Runs.nested)
  = (Return
       (Folder "sub/" "/b/a/sub/"
          (object_metadata (Minio.mkObject "b" "a/sub/" true None 0 []))),
     MemoryStore.start Runs.nested).
Proof.
  apply (get_of_directory MemoryStore.client "/b/a/sub/"
           (Match.mk "/b/a/sub/" (Match.mkAttrDict "b" "a/sub/" ""))
           (MemoryStore.start Runs.nested));
    reflexivity.
Defined.
